(** * noexcept: structured error signalling by numeric code

    A shallow embedding of [src/noexcept/exception.py], [module.py] and
    [call.py].  Python objects with identity (the exceptions) live in an
    explicit heap; insertion-ordered [dict]s are association lists; the
    registry, whose order is never observed, is a [gmap].  The two
    containers imported from [rememory] are taken as a dictionary
    ([RMDict]) and a one-value cell ([RMBlock]).  One thread is
    modelled. *)

From Stdlib Require Import ZArith DecimalString.
From stdpp Require Import gmap list strings.

(** ** Python values used by the package *)
Module Py.

(** [str(n)] for an [int]. *)
Definition str_of_int (n : Z) : string :=
  NilEmpty.string_of_int (Z.to_int n).

(** The one-character string written ["\n"] in the source. *)
Definition nl : string := String (Ascii.ascii_of_nat 10) EmptyString.

(** Truth value of an [Optional[str]]: [None] and the empty string are
    false. *)
Definition truthy (s : option string) : bool :=
  match s with
  | Some (String _ _) => true
  | _ => false
  end.

(** [s or d] for an [Optional[str]] [s]. *)
Definition str_or (s : option string) (d : string) : string :=
  match s with
  | Some (String a r) => String a r
  | _ => d
  end.

(** [sep.join(l)]. *)
Definition join (sep : string) (l : list string) : string :=
  String.concat sep l.

(** Insertion-ordered [dict]: an association list whose keys are kept
    distinct by [dict_set]. *)
Section Dict.
Context {K V : Type} `{EqDecision K}.

Fixpoint dict_get (d : list (K * V)) (k : K) : option V :=
  match d with
  | [] => None
  | (k', v) :: d' => if decide (k = k') then Some v else dict_get d' k
  end.

(** [k in d] *)
Definition dict_mem (d : list (K * V)) (k : K) : bool :=
  match dict_get d k with Some _ => true | None => false end.

(** [d[k] = v]: an existing key keeps its position, a new key goes
    last. *)
Fixpoint dict_set (d : list (K * V)) (k : K) (v : V) : list (K * V) :=
  match d with
  | [] => [(k, v)]
  | (k', v') :: d' =>
      if decide (k = k') then (k', v) :: d' else (k', v') :: dict_set d' k v
  end.

Definition dict_keys (d : list (K * V)) : list K := d.*1.
Definition dict_values (d : list (K * V)) : list V := d.*2.
End Dict.

(** [s.add(x)] on a [set] kept as a duplicate-free list. *)
Definition set_add {A} `{EqDecision A} (s : list A) (x : A) : list A :=
  if decide (x ∈ s) then s else s ++ [x].

End Py.
Import Py.

(** References to exception objects in the heap. *)
Definition ref := nat.

(** Source location of the innermost traceback frame,
    [(co_filename, tb_lineno)]; [None] stands for [(None, None)]. *)
Definition location := option (string * Z).

(** What the package reads from an arbitrary [BaseException] it is
    handed: its type name, [str(exception)], the innermost frame of its
    [__traceback__], and, when it is one of the package's own
    [NoBaseException] objects, its heap reference. *)
Record BaseException := {
  exc_type : string;
  exc_str : string;
  exc_traceback : location;
  exc_self : option ref
}.

(** ** exception.py *)
Module NoBaseException.

Record t := {
  cls : string;                                   (* type(self).__name__ *)
  nos : list (Z * list string);
  _softCodes : list (Z * bool);
  linked : list ((string * string) * list location);
  _nos_defaultdict : option (list (Z * list string));
  _linked_defaultdict : option (list ((string * string) * list location));
  args0 : string                                  (* self.args[0] *)
}.

Definition set_nos (v : list (Z * list string)) (self : t) : t :=
  {| cls := cls self; nos := v; _softCodes := _softCodes self;
     linked := linked self; _nos_defaultdict := _nos_defaultdict self;
     _linked_defaultdict := _linked_defaultdict self; args0 := args0 self |}.

Definition set_softCodes (v : list (Z * bool)) (self : t) : t :=
  {| cls := cls self; nos := nos self; _softCodes := v;
     linked := linked self; _nos_defaultdict := _nos_defaultdict self;
     _linked_defaultdict := _linked_defaultdict self; args0 := args0 self |}.

(** [self.complaints] *)
Definition complaints (self : t) : list string :=
  concat (dict_values (nos self)).

(** [_composeText], as a function of [self.nos], the only attribute it
    reads. *)
Definition composeText_of (d : list (Z * list string)) : string :=
  ("[" +:+ join "," (str_of_int <$> dict_keys d) +:+ "]")
    +:+ String.concat "" ((fun msg => nl +:+ msg) <$> concat (dict_values d)).

Definition _composeText (self : t) : string := composeText_of (nos self).

(** [__init__(self, code, complaint, codes, linked, defaultComplaint,
    softCodes)] on a new object of class [cls]; [super().__init__]
    stores the composed text as [args[0]]. *)
Definition __init__ (cls : string) (code : Z) (complaint : option string)
    (codes : option (list (Z * list string)))
    (linked : option (list ((string * string) * list location)))
    (defaultComplaint : option string)
    (softCodes : option (list (Z * bool))) : t :=
  let nos0 := default [] codes in
  let nos1 :=
    if dict_mem nos0 code then nos0
    else dict_set nos0 code [str_or defaultComplaint ("Error " +:+ str_of_int code)] in
  let nos2 :=
    match complaint with
    | Some msg =>
        if truthy complaint
        then dict_set nos1 code (default [] (dict_get nos1 code) ++ [msg])
        else nos1
    | None => nos1
    end in
  {| cls := cls; nos := nos2; _softCodes := default [] softCodes;
     linked := default [] linked; _nos_defaultdict := None;
     _linked_defaultdict := None; args0 := composeText_of nos2 |}.

(** [str(self)]: [NoBaseException] defines no [__str__] (the one in
    exception.py that renders linked causes is a method of [NoBuilder]),
    so this is [BaseException.__str__] on the single constructor
    argument. *)
Definition str (self : t) : string := args0 self.

(** [addMessage]: the [defaultdict] is created from [self.nos] on the
    first call only and shares its lists with [self.nos]; afterwards
    [self.nos] is rebuilt from it. *)
Definition addMessage (code : Z) (complaint : option string) (self : t) : t :=
  match complaint with
  | Some msg =>
      if truthy complaint then
        let dd := match _nos_defaultdict self with
                  | None => nos self
                  | Some d => d
                  end in
        let dd' := dict_set dd code (default [] (dict_get dd code) ++ [msg]) in
        {| cls := cls self; nos := dd'; _softCodes := _softCodes self;
           linked := linked self; _nos_defaultdict := Some dd';
           _linked_defaultdict := _linked_defaultdict self;
           args0 := args0 self |}
      else self
  | None => self
  end.

Definition addCode (code : Z) (defaultComplaint : option string) (self : t) : t :=
  if dict_mem (nos self) code then self
  else set_nos (dict_set (nos self) code
                  [str_or defaultComplaint ("Error " +:+ str_of_int code)]) self.

(** [self._softCodes[code] = flag] *)
Definition setSoft (code : Z) (flag : bool) (self : t) : t :=
  set_softCodes (dict_set (_softCodes self) code flag) self.

Definition _recordLinkedException (exception : BaseException) (self : t) : t :=
  let key := (exc_type exception, exc_str exception) in
  let loc := exc_traceback exception in
  let dd := match _linked_defaultdict self with
            | None => linked self
            | Some d => d
            end in
  let dd' := dict_set dd key (set_add (default [] (dict_get dd key)) loc) in
  {| cls := cls self; nos := nos self; _softCodes := _softCodes self;
     linked := dd'; _nos_defaultdict := _nos_defaultdict self;
     _linked_defaultdict := Some dd'; args0 := args0 self |}.

End NoBaseException.

Module NoBuilder.

Record t := {
  _codes : list (Z * list string);
  _linked : list BaseException;
  _soft_codes : list (Z * bool)
}.

(** [NoBuilder()] *)
Definition new : t := {| _codes := []; _linked := []; _soft_codes := [] |}.

Definition withCode (code : Z) (complaint : option string) (self : t) : t :=
  let codes1 := if dict_mem (_codes self) code then _codes self
                else dict_set (_codes self) code [] in
  let codes2 :=
    match complaint with
    | Some msg =>
        if truthy complaint
        then dict_set codes1 code (default [] (dict_get codes1 code) ++ [msg])
        else codes1
    | None => codes1
    end in
  {| _codes := codes2; _linked := _linked self; _soft_codes := _soft_codes self |}.

Definition withLinked (exception : BaseException) (self : t) : t :=
  {| _codes := _codes self; _linked := _linked self ++ [exception];
     _soft_codes := _soft_codes self |}.

Definition asSoft (code : Z) (self : t) : t :=
  {| _codes := _codes self; _linked := _linked self;
     _soft_codes := dict_set (_soft_codes self) code true |}.

(** [build]: [inl] is the [ValueError]; on success the new exception
    is returned together with the builder, whose primary message list
    is the very list object held by the exception ([dict.copy] is
    shallow), so the [append] done by [__init__] shows in it too. *)
Definition build (self : t) : string + (NoBaseException.t * t) :=
  match _codes self with
  | [] => inl "At least one code must be specified"
  | (primary_code, primary_complaints) :: _ =>
      let primary_complaint := head primary_complaints in
      let exc := NoBaseException.__init__ "NoBaseException" primary_code
                   primary_complaint (Some (_codes self)) None None
                   (Some (_soft_codes self)) in
      let exc' := foldl (fun e l => NoBaseException._recordLinkedException l e)
                    exc (_linked self) in
      let shared := default primary_complaints
                      (dict_get (NoBaseException.nos exc) primary_code) in
      inr (exc', {| _codes := dict_set (_codes self) primary_code shared;
                    _linked := _linked self;
                    _soft_codes := _soft_codes self |})
  end.

End NoBuilder.

(** ** Interpreter state and control flow *)

(** What a call can raise. *)
Inductive Raised :=
  | ExcNo (exc : ref)                 (* raise <a NoBaseException object> *)
  | ExcGroup (message : string) (exceptions : list ref) (* ExceptionGroup *)
  | ExcTypeError
  | ExcValueError (message : string)
  | ExcIndexError
  | SystemExit (status : Z)           (* sys.exit(status) *)
  | Stuck.  (* not Python: a dangling reference, or a handler applied to
               arguments its pattern checker rejects *)

(** The singleton [no], the objects reachable from it, and standard
    output.  [thread_pending] is the attribute [no._thread_local.pending]
    of the running thread: [None] while the attribute was never set. *)
Record State := {
  heap : list NoBaseException.t;
  _registry : gmap Z (string * string * list Z * bool);
  pending_value : option ref;         (* no.pending.value *)
  thread_pending : option (option ref);
  hideTraceback : bool;
  stdout : list string
}.

Definition set_heap (v : list NoBaseException.t) (st : State) : State :=
  {| heap := v; _registry := _registry st; pending_value := pending_value st;
     thread_pending := thread_pending st; hideTraceback := hideTraceback st;
     stdout := stdout st |}.

Definition set_registry (v : gmap Z (string * string * list Z * bool))
    (st : State) : State :=
  {| heap := heap st; _registry := v; pending_value := pending_value st;
     thread_pending := thread_pending st; hideTraceback := hideTraceback st;
     stdout := stdout st |}.

Definition set_pending_value (v : option ref) (st : State) : State :=
  {| heap := heap st; _registry := _registry st; pending_value := v;
     thread_pending := thread_pending st; hideTraceback := hideTraceback st;
     stdout := stdout st |}.

Definition set_thread_pending (v : option (option ref)) (st : State) : State :=
  {| heap := heap st; _registry := _registry st;
     pending_value := pending_value st; thread_pending := v;
     hideTraceback := hideTraceback st; stdout := stdout st |}.

Definition set_hideTraceback (v : bool) (st : State) : State :=
  {| heap := heap st; _registry := _registry st;
     pending_value := pending_value st; thread_pending := thread_pending st;
     hideTraceback := v; stdout := stdout st |}.

Definition set_stdout (v : list string) (st : State) : State :=
  {| heap := heap st; _registry := _registry st;
     pending_value := pending_value st; thread_pending := thread_pending st;
     hideTraceback := hideTraceback st; stdout := v |}.

(** State and exception monad: a computation returns a value or raises,
    and the state reached is kept either way. *)
Definition M (A : Type) : Type := State → (A + Raised) * State.

#[global] Instance M_ret : MRet M := λ A x st, (inl x, st).
#[global] Instance M_bind : MBind M := λ A B f m st,
  match m st with
  | (inl x, st') => f x st'
  | (inr e, st') => (inr e, st')
  end.

Definition raise {A} (e : Raised) : M A := λ st, (inr e, st).
Definition get_state : M State := λ st, (inl st, st).
Definition modify_state (f : State → State) : M unit := λ st, (inl tt, f st).

(** Object creation, attribute reads and in-place mutation. *)
Definition new (o : NoBaseException.t) : M ref :=
  λ st, (inl (length (heap st)), set_heap (heap st ++ [o]) st).

Definition deref (r : ref) : M NoBaseException.t :=
  λ st, match heap st !! r with
        | Some o => (inl o, st)
        | None => (inr Stuck, st)
        end.

Definition update (r : ref) (f : NoBaseException.t → NoBaseException.t) : M unit :=
  o ← deref r;
  modify_state (λ st, set_heap (<[r := f o]> (heap st)) st).

(** [print(s)] *)
Definition print (s : string) : M unit :=
  modify_state (λ st, set_stdout (stdout st ++ [s]) st).

(** [for x in l: body(x)] *)
Fixpoint for_each {A} (l : list A) (body : A → M unit) : M unit :=
  match l with
  | [] => mret tt
  | x :: l' => body x;; for_each l' body
  end.

(** [[f(x) for x in l]] *)
Fixpoint comprehension {A B} (f : A → M B) (l : list A) : M (list B) :=
  match l with
  | [] => mret []
  | x :: l' => y ← f x; ys ← comprehension f l'; mret (y :: ys)
  end.

(** ** module.py *)
Module NoModule.

Definition dice : M unit :=
  modify_state (λ st,
    let st1 := set_pending_value None st in
    match thread_pending st1 with
    | Some _ => set_thread_pending (Some None) st1
    | None => st1
    end).

Definition traceback : M unit := modify_state (set_hideTraceback true).

(** [getattr(self._thread_local, 'pending', None) or self.pending.value];
    exception objects are always true. *)
Definition stash_of (st : State) : option ref :=
  match thread_pending st with
  | Some (Some r) => Some r
  | _ => pending_value st
  end.

Definition bueno : M bool :=
  st ← get_state;
  mret (match thread_pending st with
        | Some (Some _) => true
        | _ => match pending_value st with Some _ => true | None => false end
        end).

(** [handled] is the exception [sys.exc_info()] reports. *)
Definition complaints (handled : option BaseException) : M (list string) :=
  st ← get_state;
  let stash := match stash_of st with
               | Some r => Some r
               | None => handled ≫= exc_self
               end in
  match stash with
  | None => mret []
  | Some r => o ← deref r; mret (concat (dict_values (NoBaseException.nos o)))
  end.

Definition nos (handled : option BaseException) : M (list (Z * list string)) :=
  st ← get_state;
  match stash_of st with
  | Some r => o ← deref r; mret (NoBaseException.nos o)
  | None =>
      match handled ≫= exc_self with
      | Some r => o ← deref r; mret (NoBaseException.nos o)
      | None => mret []
      end
  end.

(** [likey]: the generated class is identified with its name. *)
Definition likey (code : Z) (defaultComplaint : string)
    (linkedCodes : option (list Z)) (soft : bool) : M unit :=
  let name := "Error" +:+ str_of_int code in
  let registry_entry :=
    (name, str_or (Some defaultComplaint) ("Error " +:+ str_of_int code),
     default [] linkedCodes, soft) in
  st ← get_state;
  match _registry st !! code with
  | Some _ => mret tt
  | None => modify_state (set_registry (<[code := registry_entry]> (_registry st)))
  end.

(** [self._registry.get(code, dflt)] *)
Definition registry_get (st : State) (code : Z)
    (dflt : string * string * list Z * bool) : string * string * list Z * bool :=
  default dflt (_registry st !! code).

Definition _makeOne (code : Z) (complaint : option string)
    (linked : list BaseException) : M ref :=
  st ← get_state;
  let '(excName, defaultMsg, linkedCodes, softFlag) :=
    registry_get st code
      ("NoBaseException", "Error " +:+ str_of_int code, [], false) in
  let softCodes := [(code, softFlag)] in
  exc ← new (NoBaseException.__init__ excName code complaint None (Some [])
               (Some defaultMsg) (Some softCodes));
  for_each linked (λ l, update exc (NoBaseException._recordLinkedException l));;
  for_each linkedCodes (λ extra,
    st' ← get_state;
    let msg := (registry_get st' extra
                  ("", "Error " +:+ str_of_int extra, [], false)).1.1.2 in
    let extraSoft := (registry_get st' extra ("", "", [], false)).2 in
    update exc (NoBaseException.addCode extra (Some msg));;
    update exc (NoBaseException.setSoft extra extraSoft));;
  mret exc.

Definition propagate (exc : ref) (newCode : Z) : M unit :=
  st ← get_state;
  let msg := (registry_get st newCode
                ("", "Error " +:+ str_of_int newCode, [], false)).1.1.2 in
  let soft := (registry_get st newCode ("", "", [], false)).2 in
  update exc (NoBaseException.addCode newCode (Some msg));;
  update exc (NoBaseException.setSoft newCode soft).

End NoModule.

(** ** call.py *)

(** The receiver of a call: the module object [no], or an exception
    object.  The two [__call__] methods are the only callers of
    [_handleCall]; they pass [(self, True)] and [(self, False)], so the
    source's [isModule] flag is a function of the receiver. *)
Inductive Context :=
  | CtxModule
  | CtxException (self : ref).

Definition isModule (context : Context) : bool :=
  match context with CtxModule => true | CtxException _ => false end.

(** A positional argument; [AOther] is any value that is neither an
    [int], a [str], a [list] nor an exception. *)
Inductive Arg :=
  | AInt (n : Z)
  | AStr (s : string)
  | AList (codes : list Z)
  | AExc (e : BaseException)
  | AOther.

Definition _getPending : M (option ref) :=
  st ← get_state; mret (NoModule.stash_of st).

Definition _setPending (exc : option ref) : M unit :=
  modify_state (set_thread_pending (Some exc)).

(** In the default tuples the first component ([None] in the source) is
    never read; the empty string stands for it. *)
Definition _getRegistryEntry (context : Context) (code : Z) : M (bool * string) :=
  match context with
  | CtxModule =>
      st ← get_state;
      let registry_entry :=
        NoModule.registry_get st code ("", "Error " +:+ str_of_int code, [], false) in
      mret (registry_entry.2, registry_entry.1.1.2)
  | CtxException self =>
      o ← deref self;
      mret (default false (dict_get (NoBaseException._softCodes o) code),
            "Error " +:+ str_of_int code)
  end.

Definition raze (exception : ref) : M unit :=
  o ← deref exception;
  print (NoBaseException.str o);;
  raise (SystemExit 1).

Definition _handleSoftOrRaise (exc : ref) (softFlag soften : bool) : M unit :=
  if softFlag || soften then _setPending (Some exc)
  else
    st ← get_state;
    (if hideTraceback st then raze exc else mret tt);;
    raise (ExcNo exc).

(** [context.__class__(code, complaint)] *)
Definition construct_like (self : ref) (code : Z) (complaint : option string) : M ref :=
  o ← deref self;
  new (NoBaseException.__init__ (NoBaseException.cls o) code complaint
         None None None None).

Definition _handleEmptyCall (context : Context) : M unit :=
  pending ← _getPending;
  st ← get_state;
  match pending with
  | Some pending =>
      (if hideTraceback st then raze pending else mret tt);;
      raise (ExcNo pending)
  | None =>
      match context with
      | CtxModule =>
          exception ← NoModule._makeOne 0 None [];
          (if hideTraceback st then raze exception else mret tt);;
          raise (ExcNo exception)
      | CtxException self =>
          (if hideTraceback st then raze self else mret tt);;
          raise (ExcNo self)
      end
  end.

(** [raise ExceptionGroup(message, exceptions)]: the constructor rejects
    an empty sequence with a [ValueError]. *)
Definition raise_ExceptionGroup {A} (message : string) (exceptions : list ref) : M A :=
  match exceptions with
  | [] => raise (ExcValueError "second argument (exceptions) must be a non-empty sequence")
  | _ => raise (ExcGroup message exceptions)
  end.

Definition _handleExceptionGroup (context : Context) (codes : list Z)
    (complaint : option string) : M unit :=
  match context with
  | CtxModule =>
      exceptions ← comprehension (λ c, NoModule._makeOne c complaint []) codes;
      raise_ExceptionGroup "Multiple errors" exceptions
  | CtxException self =>
      exceptions ← comprehension (λ c, construct_like self c complaint) codes;
      st ← get_state;
      (if hideTraceback st then
         match exceptions with
         | e0 :: _ => raze e0
         | [] => raise ExcIndexError
         end
       else mret tt);;
      raise_ExceptionGroup "Multiple errors" exceptions
  end.

Definition _handleSingleCode (context : Context) (code : Z)
    (complaint : option string) (soften : bool)
    (exception : option BaseException) : M unit :=
  '(softFlag, defaultMsg) ← _getRegistryEntry context code;
  pending ← _getPending;
  match pending with
  | Some pending =>
      (* 3a) early accumulation *)
      update pending (NoBaseException.addCode code (Some defaultMsg));;
      (if truthy complaint
       then update pending (NoBaseException.addMessage code complaint)
       else mret tt);;
      update pending (NoBaseException.setSoft code softFlag);;
      _setPending (Some pending)
  | None =>
      (* 3b) module propagation; no [return] follows the stash *)
      match context, exception ≫= exc_self with
      | CtxModule, Some e =>
          NoModule.propagate e code;;
          (if truthy complaint
           then update e (NoBaseException.addMessage code complaint)
           else mret tt);;
          update e (NoBaseException.setSoft code softFlag);;
          _handleSoftOrRaise e softFlag soften
      | _, _ => mret tt
      end;;
      (* 3c) instance propagation; no [return] follows the stash *)
      match context with
      | CtxException self =>
          update self (NoBaseException.addCode code (Some defaultMsg));;
          (if truthy complaint
           then update self (NoBaseException.addMessage code complaint)
           else mret tt);;
          update self (NoBaseException.setSoft code softFlag);;
          _handleSoftOrRaise self softFlag soften
      | CtxModule => mret tt
      end;;
      (* 3d) fresh exception *)
      exc ← match context with
            | CtxModule => NoModule._makeOne code complaint []
            | CtxException self => construct_like self code complaint
            end;
      _handleSoftOrRaise exc softFlag soften
  end.

Definition _handleCodeExceptionLink (context : Context) (code : Z)
    (exception : BaseException) (complaint : option string)
    (soften : bool) : M unit :=
  '(softFlag, defaultMsg) ← _getRegistryEntry context code;
  match context with
  | CtxModule =>
      exc ← NoModule._makeOne code complaint [exception];
      _handleSoftOrRaise exc softFlag soften
  | CtxException self =>
      update self (NoBaseException.addCode code (Some defaultMsg));;
      update self (NoBaseException._recordLinkedException exception);;
      _handleSoftOrRaise self softFlag soften
  end.

Definition _handleCodeMessage (context : Context) (code : Z)
    (complaint : string) (soften : bool) : M unit :=
  '(softFlag, defaultMsg) ← _getRegistryEntry context code;
  pending ← _getPending;
  match pending with
  | Some pending =>
      update pending (NoBaseException.addCode code (Some defaultMsg));;
      update pending (NoBaseException.addMessage code (Some complaint));;
      update pending (NoBaseException.setSoft code softFlag);;
      _setPending (Some pending)
  | None =>
      match context with
      | CtxException self =>
          update self (NoBaseException.addCode code (Some defaultMsg));;
          update self (NoBaseException.addMessage code (Some complaint));;
          update self (NoBaseException.setSoft code softFlag);;
          _handleSoftOrRaise self softFlag soften
      | CtxModule => mret tt
      end;;
      exc ← match context with
            | CtxModule => NoModule._makeOne code (Some complaint) []
            | CtxException self => construct_like self code (Some complaint)
            end;
      _handleSoftOrRaise exc softFlag soften
  end.

Definition CallHandler : Type :=
  Context → list Arg → option string → bool → M unit.

(** The strategy table, in the source's order.  Each handler is only
    run behind its pattern checker; its other branch is unreachable. *)
Definition CALL_HANDLERS : list ((list Arg → bool) * CallHandler) :=
  [ (λ args, match args with [] => true | _ => false end,
     λ ctx args complaint soften, _handleEmptyCall ctx);
    (λ args, match args with [AList _] => true | _ => false end,
     λ ctx args complaint soften,
       match args with
       | AList codes :: _ => _handleExceptionGroup ctx codes complaint
       | _ => raise Stuck
       end);
    (λ args, match args with [AExc _] => true | _ => false end,
     λ ctx args complaint soften, mret tt);
    (λ args, match args with [AInt _] => true | _ => false end,
     λ ctx args complaint soften,
       match args with
       | AInt code :: _ => _handleSingleCode ctx code complaint soften None
       | _ => raise Stuck
       end);
    (λ args, match args with [AInt _; AExc _] => true | _ => false end,
     λ ctx args complaint soften,
       match args with
       | AInt code :: AExc e :: _ =>
           _handleCodeExceptionLink ctx code e complaint soften
       | _ => raise Stuck
       end);
    (λ args, match args with [AInt _; AStr _] => true | _ => false end,
     λ ctx args complaint soften,
       match args with
       | AInt code :: AStr msg :: _ => _handleCodeMessage ctx code msg soften
       | _ => raise Stuck
       end) ].

Fixpoint try_handlers (handlers : list ((list Arg → bool) * CallHandler))
    (context : Context) (args : list Arg) (complaint : option string)
    (soften : bool) : M unit :=
  match handlers with
  | [] => raise ExcTypeError
  | (pattern_checker, handler) :: rest =>
      if pattern_checker args then handler context args complaint soften
      else try_handlers rest context args complaint soften
  end.

Definition _handleCall (context : Context) (args : list Arg)
    (complaint : option string) (soften : bool) : M unit :=
  match args, complaint, soften with
  | [], None, false => _handleEmptyCall context
  | _, _, _ => try_handlers CALL_HANDLERS context args complaint soften
  end.

(** The state of a fresh interpreter after [import noexcept]. *)
Definition initial : State :=
  {| heap := []; _registry := ∅; pending_value := None;
     thread_pending := None; hideTraceback := false; stdout := [] |}.

(** Run a computation for its final state. *)
Definition exec {A} (m : M A) (st : State) : State := (m st).2.

(** ** module.py: [NoModule.go] *)

(** What the wrapped code can throw: an instance of [Exception], which
    the [except Exception] clause of [go] catches, or another
    [BaseException] ([KeyboardInterrupt], [SystemExit], ...), which it
    does not. *)
Inductive Thrown :=
  | ThrownException (exc : BaseException)
  | ThrownOther (exc : BaseException).

(** The wrapped code: it may change the state, and returns or throws. *)
Definition Callee (A : Type) : Type := State → (A + Thrown) * State.

(** What leaves [go]: an exception of the wrapped code that was not
    caught, or whatever the call [self(...)] in the handler raises. *)
Inductive GoRaised :=
  | Propagated (exc : BaseException)
  | Signalled (e : Raised).

(** [go(code, fn, soften=soften)], the callable path; [fn] stands for
    the call of the wrapped function on its arguments. *)
Definition go {A} (code : Z) (fn : Callee A) (soften : bool)
    : State → (option A + GoRaised) * State :=
  λ st,
    match fn st with
    | (inl v, st1) => (inl (Some v), st1)
    | (inr (ThrownException exc), st1) =>
        let call :=
          match exc_self exc with
          | Some _ => _handleCall CtxModule [AInt code] None soften
          | None => _handleCall CtxModule [AInt code; AExc exc] None soften
          end in
        match call st1 with
        | (inl _, st2) => (inl None, st2)
        | (inr e, st2) => (inr (Signalled e), st2)
        end
    | (inr (ThrownOther exc), st1) => (inr (Propagated exc), st1)
    end.

(** [with go(code, soften=soften): body], the context-manager path:
    [_ctx] suppresses the exception of the block when its handler
    returns. *)
Definition go_ctx (code : Z) (body : Callee unit) (soften : bool)
    : State → (unit + GoRaised) * State :=
  λ st,
    match body st with
    | (inl _, st1) => (inl tt, st1)
    | (inr (ThrownException exc), st1) =>
        let call :=
          match exc_self exc with
          | Some _ => _handleCall CtxModule [AInt code] None soften
          | None => _handleCall CtxModule [AInt code; AExc exc] None soften
          end in
        match call st1 with
        | (inl _, st2) => (inl tt, st2)
        | (inr e, st2) => (inr (Signalled e), st2)
        end
    | (inr (ThrownOther exc), st1) => (inr (Propagated exc), st1)
    end.

(** * Specification vocabulary *)

(** The object [_makeOne] builds, as a function of the registry. *)
Definition made (st : State) (code : Z) (complaint : option string)
    (linked : list BaseException) : NoBaseException.t :=
  let '(excName, defaultMsg, linkedCodes, softFlag) :=
    NoModule.registry_get st code
      ("NoBaseException", "Error " +:+ str_of_int code, [], false) in
  let o0 := NoBaseException.__init__ excName code complaint None (Some [])
              (Some defaultMsg) (Some [(code, softFlag)]) in
  let o1 := foldl (λ o l, NoBaseException._recordLinkedException l o) o0 linked in
  foldl (λ o extra,
           NoBaseException.setSoft extra
             (NoModule.registry_get st extra ("", "", [], false)).2
             (NoBaseException.addCode extra
                (Some (NoModule.registry_get st extra
                         ("", "Error " +:+ str_of_int extra, [], false)).1.1.2) o))
        o1 linkedCodes.

(** The receiver of the call is a live object. *)
Definition ctx_live (st : State) (context : Context) : Prop :=
  match context with
  | CtxModule => True
  | CtxException self => is_Some (heap st !! self)
  end.

(** The argument shapes that end in [_handleSoftOrRaise] for code [c]:
    a single code or a code and a message while nothing is pending, and
    a code with an exception to link. *)
Inductive reaches_policy (st : State) (c : Z) : list Arg → Prop :=
  | rp_single : NoModule.stash_of st = None → reaches_policy st c [AInt c]
  | rp_message msg :
      NoModule.stash_of st = None → reaches_policy st c [AInt c; AStr msg]
  | rp_link e : reaches_policy st c [AInt c; AExc e].

(** [r] is a live exception whose code map has key [c]. *)
Definition holds_code (st : State) (r : ref) (c : Z) : Prop :=
  ∃ o, heap st !! r = Some o ∧ dict_mem (NoBaseException.nos o) c = true.

(** The exception a call produces or augments: a new object for a call
    on the module, the receiver for a call on an exception. *)
Definition policy_target (context : Context) (st : State) : ref :=
  match context with
  | CtxModule => length (heap st)
  | CtxException self => self
  end.

(** [_handleSoftOrRaise] is the last step of the handler.  On an
    exception receiver the single-code and the code-and-message
    handlers go on after it when it returns. *)
Definition policy_is_last (context : Context) (args : list Arg) : bool :=
  match context, args with
  | CtxException _, [AInt _] | CtxException _, [AInt _; AStr _] => false
  | _, _ => true
  end.

(** Raise-or-stash, seen from the caller, for the exception [target]
    with code [c]: it is the one left pending, and the call returns; or
    its text is printed and the interpreter exits with status 1; or it
    is the one raised. *)
Definition policy_outcome (target : ref) (c : Z) (softFlag soften : bool)
    (st : State) (res : unit + Raised) (st' : State) : Prop :=
  if softFlag || soften then
    res = inl tt ∧ thread_pending st' = Some (Some target)
    ∧ holds_code st' target c
  else if hideTraceback st then
    res = inr (SystemExit 1) ∧
    ∃ o, heap st' !! target = Some o ∧ dict_mem (NoBaseException.nos o) c = true ∧
         stdout st' = stdout st ++ [NoBaseException.str o]
  else
    res = inr (ExcNo target) ∧ holds_code st' target c.

(** The raise-or-stash property as the specification words it, with the
    soft flag the registry holds for [c], at one call. *)
Definition raise_or_stash_as_specified (context : Context) (c : Z) (args : list Arg)
    (complaint : option string) (soften : bool) (st : State) : Prop :=
  policy_outcome (policy_target context st) c
    (NoModule.registry_get st c ("", "Error " +:+ str_of_int c, [], false)).2
    soften st
    (_handleCall context args complaint soften st).1
    (_handleCall context args complaint soften st).2.

(** The mutators of an exception object. *)
Inductive Mutation :=
  | AddCode (code : Z) (defaultComplaint : option string)
  | AddMessage (code : Z) (complaint : option string)
  | SetSoft (code : Z) (flag : bool)
  | RecordLinked (exception : BaseException).

Definition mutate (o : NoBaseException.t) (m : Mutation) : NoBaseException.t :=
  match m with
  | AddCode c d => NoBaseException.addCode c d o
  | AddMessage c msg => NoBaseException.addMessage c msg o
  | SetSoft c b => NoBaseException.setSoft c b o
  | RecordLinked e => NoBaseException._recordLinkedException e o
  end.

(** [no.build().withCode(404, "Not Found").withCode(500, "Server Error")
    .withCode(500, "extra")] *)
Definition builder_404_500 : NoBuilder.t :=
  NoBuilder.withCode 500 (Some "extra")
    (NoBuilder.withCode 500 (Some "Server Error")
       (NoBuilder.withCode 404 (Some "Not Found") NoBuilder.new)).

(** The pending exception, if any, is a live object. *)
Definition pending_live (st : State) : Prop :=
  match NoModule.stash_of st with
  | Some p => is_Some (heap st !! p)
  | None => True
  end.

(** The exception an empty call is about. *)
Definition empty_call_target (context : Context) (st : State) : ref :=
  match NoModule.stash_of st with
  | Some pending => pending
  | None =>
      match context with
      | CtxModule => length (heap st)
      | CtxException self => self
      end
  end.

(** The state once that exception exists. *)
Definition empty_call_state (context : Context) (st : State) : State :=
  match NoModule.stash_of st, context with
  | None, CtxModule => set_heap (heap st ++ [made st 0 None []]) st
  | _, _ => st
  end.

(** The empty-call property as the specification words it, at one
    receiver and state. *)
Definition empty_call_as_specified (context : Context) (complaint : option string)
    (soften : bool) (st : State) : Prop :=
  let res := (_handleCall context [] complaint soften st).1 in
  let st' := (_handleCall context [] complaint soften st).2 in
  match NoModule.stash_of st with
  | Some pending => res = inr (ExcNo pending)
  | None => ∃ r, res = inr (ExcNo r) ∧ holds_code st' r 0
  end.

(** [e = no.way(7)] in a fresh interpreter. *)
Definition with_receiver_7 : State :=
  exec (new (NoBaseException.__init__ "NoBaseException" 7 None None None None None))
       initial.

(** [no.likey(1001, soft=True)] in a fresh interpreter. *)
Definition registered_soft_1001 : State :=
  exec (NoModule.likey 1001 "" None true) initial.

(** ... followed by [e = no.way(7)] *)
Definition soft_1001_with_receiver_7 : State :=
  exec (new (NoBaseException.__init__ "NoBaseException" 7 None None None None None))
       registered_soft_1001.

(** ... or followed by [no(1001); no.traceback()] *)
Definition hidden_with_pending : State :=
  exec NoModule.traceback
    (exec (_handleCall CtxModule [AInt 1001] None false) registered_soft_1001).

(** The message a truthy complaint contributes. *)
Definition complaint_list (complaint : option string) : list string :=
  match complaint with
  | Some (String a s) => [String a s]
  | _ => []
  end.

(** [o] has [c] as its first code, with a default message followed by
    the complaint, if any. *)
Definition carries (o : NoBaseException.t) (c : Z) (complaint : option string) : Prop :=
  ∃ dflt rest,
    NoBaseException.nos o = (c, dflt :: complaint_list complaint) :: rest.

(** The code-list property as the specification words it, at one call. *)
Definition code_list_as_specified (context : Context) (codes : list Z)
    (complaint : option string) (soften : bool) (st : State) : Prop :=
  let res := (_handleCall context [AList codes] complaint soften st).1 in
  let st' := (_handleCall context [AList codes] complaint soften st).2 in
  (∃ exceptions,
     res = inr (ExcGroup "Multiple errors" exceptions)
     ∧ Forall2 (λ r c, ∃ o, heap st' !! r = Some o ∧ carries o c complaint)
               exceptions codes)
  ∧ thread_pending st' = thread_pending st
  ∧ pending_value st' = pending_value st.

(** The single-code call with [c] and [complaint=m] on the receiver
    [context], once for each [m] of [complaints], in order. *)
Definition repeat_single (context : Context) (c : Z)
    (complaints : list (option string)) : M unit :=
  for_each complaints (λ complaint, _handleCall context [AInt c] complaint false).

(** The three-calls scenario as the specification words it, for code
    [c] on the receiver [context] from state [st]. *)
Definition three_calls_as_specified (context : Context) (c : Z) (st : State) : Prop :=
  let r := repeat_single context c [None; None; None] st in
  r.1 = inl tt
  ∧ (NoModule.nos None r.2).1
    = inl [(c, replicate 3 ("Error " +:+ str_of_int c))]
  ∧ (NoModule.complaints None r.2).1
    = inl (replicate 3 ("Error " +:+ str_of_int c)).


(** [no.likey(1, soft=True); no(1); no(1, complaint="a")] *)
Definition pending_with_message_cache : State :=
  exec (_handleCall CtxModule [AInt 1] (Some "a") false)
    (exec (_handleCall CtxModule [AInt 1] None false)
       (exec (NoModule.likey 1 "" None true) initial)).

(** ** Vocabulary for the further properties *)

(** What no call changes: the registry, hide-traceback mode and the
    shared slot stay as they are, standard output only grows, and every
    exception object stays in place with its class and its text. *)
Definition frame (st st' : State) : Prop :=
  _registry st' = _registry st
  ∧ hideTraceback st' = hideTraceback st
  ∧ pending_value st' = pending_value st
  ∧ (∃ printed, stdout st' = stdout st ++ printed)
  ∧ ∀ (r : ref) (o : NoBaseException.t), heap st !! r = Some o →
      ∃ o', heap st' !! r = Some o'
          ∧ NoBaseException.str o' = NoBaseException.str o
          ∧ NoBaseException.cls o' = NoBaseException.cls o.

(** A computation keeps the frame and raises only exceptions in [P]. *)
Definition safe {A} (P : Raised → Prop) (m : M A) : Prop :=
  ∀ st, frame st (m st).2 ∧ ∀ e, (m st).1 = inr e → P e.

(** Anything but the usage error. *)
Definition not_usage_error (e : Raised) : Prop := e ≠ ExcTypeError.

(** The six argument shapes of [CALL_HANDLERS]. *)
Inductive call_shape : list Arg → Prop :=
  | shape_empty : call_shape []
  | shape_list codes : call_shape [AList codes]
  | shape_exception e : call_shape [AExc e]
  | shape_code c : call_shape [AInt c]
  | shape_link c e : call_shape [AInt c; AExc e]
  | shape_message c msg : call_shape [AInt c; AStr msg].

(** The message cache of [addMessage] is absent or equal to the code
    map. *)
Definition nos_synced (o : NoBaseException.t) : Prop :=
  NoBaseException._nos_defaultdict o = None
  ∨ NoBaseException._nos_defaultdict o = Some (NoBaseException.nos o).

(** The same for the cache of [_recordLinkedException]. *)
Definition linked_synced (o : NoBaseException.t) : Prop :=
  NoBaseException._linked_defaultdict o = None
  ∨ NoBaseException._linked_defaultdict o = Some (NoBaseException.linked o).

(** The key under which a cause is recorded. *)
Definition cause_key (e : BaseException) : string * string :=
  (exc_type e, exc_str e).

(** [addMessage] for each pair of [msgs], in order. *)
Definition add_messages (msgs : list (Z * option string))
    (o : NoBaseException.t) : NoBaseException.t :=
  foldl (λ o cm, NoBaseException.addMessage cm.1 cm.2 o) o msgs.

(** The non-empty messages of [msgs] given for code [k], in order. *)
Definition messages_for (k : Z) (msgs : list (Z * option string)) : list string :=
  msgs ≫= (λ cm, if decide (cm.1 = k) then complaint_list cm.2 else []).

(** The two registry reads [_makeOne] and [propagate] do for a code. *)
Definition registered_message (st : State) (c : Z) : string :=
  (NoModule.registry_get st c ("", "Error " +:+ str_of_int c, [], false)).1.1.2.

Definition registered_soft (st : State) (c : Z) : bool :=
  (NoModule.registry_get st c ("", "", [], false)).2.

(** What [propagate] does to the object. *)
Definition propagated (st : State) (c : Z) (o : NoBaseException.t) : NoBaseException.t :=
  NoBaseException.setSoft c (registered_soft st c)
    (NoBaseException.addCode c (Some (registered_message st c)) o).

(** The message list a code gets when it is added from the registry. *)
Definition default_entry (st : State) (c : Z) : list string :=
  [str_or (Some (registered_message st c)) ("Error " +:+ str_of_int c)].

(** The chainable methods of [NoBuilder]. *)
Inductive BuilderOp :=
  | WithCode (code : Z) (complaint : option string)
  | WithLinked (exception : BaseException)
  | AsSoft (code : Z).

Definition builder_step (b : NoBuilder.t) (op : BuilderOp) : NoBuilder.t :=
  match op with
  | WithCode c m => NoBuilder.withCode c m b
  | WithLinked e => NoBuilder.withLinked e b
  | AsSoft c => NoBuilder.asSoft c b
  end.

Definition is_withCode (op : BuilderOp) : bool :=
  match op with WithCode _ _ => true | _ => false end.

(** [build] called [n] times in a row on one builder; the exceptions
    are dropped, the builder is kept. *)
Fixpoint rebuild (n : nat) (b : NoBuilder.t) : string + NoBuilder.t :=
  match n with
  | 0 => inr b
  | S n' =>
      match NoBuilder.build b with
      | inl err => inl err
      | inr (_, b') => rebuild n' b'
      end
  end.

(** The result of [_handleSoftOrRaise] for a live exception [exc]
    holding object [o]. *)
Definition policy_result (exc : ref) (o : NoBaseException.t)
    (softFlag soften : bool) (st : State) : (unit + Raised) * State :=
  if softFlag || soften then (inl tt, set_thread_pending (Some (Some exc)) st)
  else if hideTraceback st
       then (inr (SystemExit 1), set_stdout (stdout st ++ [NoBaseException.str o]) st)
       else (inr (ExcNo exc), st).

(** The outcome of [go] when its handler ran the call [res]. *)
Definition go_outcome {A} (res : (unit + Raised) * State)
    : (option A + GoRaised) * State :=
  match res with
  | (inl _, st2) => (inl None, st2)
  | (inr e, st2) => (inr (Signalled e), st2)
  end.

(** What [go] may signal: an exception of the package, or the exit of
    the interpreter when tracebacks are hidden. *)
Definition go_signal (e : Raised) : Prop :=
  e = Stuck ∨ e = SystemExit 1 ∨ ∃ r, e = ExcNo r.

(** [KeyError('missing key')] raised outside the package, without
    traceback. *)
Definition key_error : BaseException :=
  {| exc_type := "KeyError"; exc_str := "'missing key'";
     exc_traceback := None; exc_self := None |}.


(** A function that raises [exc] and does nothing else. *)
Definition raising (exc : BaseException) : Callee unit :=
  λ st, (inr (ThrownException exc), st).

(** Not an exception of the package. *)
Definition quiet (e : Raised) : Prop :=
  match e with ExcNo _ => False | _ => True end.

(** With tracebacks hidden, [m] keeps them hidden and raises no
    exception of the package. *)
Definition hidden_safe {A} (m : M A) : Prop :=
  ∀ st, hideTraceback st = true →
    hideTraceback (m st).2 = true ∧ ∀ e, (m st).1 = inr e → quiet e.

(** [no.traceback()] followed by the calls of [calls], in order; each
    is a receiver with its positional arguments, [complaint] and
    [soften]. *)
Definition hidden_calls
    (calls : list (Context * list Arg * option string * bool)) : M unit :=
  NoModule.traceback;;
  for_each calls (λ call, _handleCall call.1.1.1 call.1.1.2 call.1.2 call.2).

(** The result [res] of a run, in a state like its final one but with
    the [hideTraceback] flag set to [b]. *)
Definition with_flag {A} (b : bool) (res : (A + Raised) * State)
    : (A + Raised) * State :=
  (res.1, set_hideTraceback b res.2).

(** What [raze] makes of a result that raises an exception of the
    package: its text is printed and the interpreter exits with status
    1.  Other results are left as they are. *)
Definition exit_instead {A} (res : (A + Raised) * State) : (A + Raised) * State :=
  match res with
  | (inr (ExcNo r), st') =>
      match heap st' !! r with
      | Some o => (inr (SystemExit 1),
                   set_stdout (stdout st' ++ [NoBaseException.str o]) st')
      | None => (inr Stuck, st')
      end
  | _ => res
  end.

(** [m] never reads the [hideTraceback] flag. *)
Definition flag_blind {A} (m : M A) : Prop :=
  ∀ b st, m (set_hideTraceback b st) = with_flag b (m st).

(** Run with tracebacks hidden, [m] does what it does with tracebacks
    shown, except that it prints and exits where it would raise an
    exception of the package; and [m] leaves the flag alone. *)
Definition exits_when_hidden {A} (m : M A) : Prop :=
  ∀ st, hideTraceback st = false →
    m (set_hideTraceback true st) = with_flag true (exit_instead (m st))
    ∧ hideTraceback (m st).2 = false.

(** [args] is a list of codes passed to an exception. *)
Definition list_on_exception (context : Context) (args : list Arg) : bool :=
  match context, args with
  | CtxException _, [AList _] => true
  | _, _ => false
  end.

(** * Proofs *)

(** ** Sequencing and the heap *)

Lemma set_heap_id st : set_heap (heap st) st = st.
Proof. by destruct st. Qed.

Lemma bind_ok {A B} (m : M A) (f : A → M B) st x st' :
  m st = (inl x, st') → (m ≫= f) st = f x st'.
Proof. unfold mbind, M_bind. by intros ->. Qed.

Lemma bind_assoc {A B C} (m : M A) (f : A → M B) (g : B → M C) st :
  ((m ≫= f) ≫= g) st = (m ≫= λ x, f x ≫= g) st.
Proof. unfold mbind, M_bind. by destruct (m st) as [[x|e] st']. Qed.

Lemma get_state_run st : get_state st = (inl st, st).
Proof. done. Qed.

Lemma ret_run {A} (x : A) st : mret (M := M) x st = (inl x, st).
Proof. done. Qed.

Lemma getPending_run st : _getPending st = (inl (NoModule.stash_of st), st).
Proof. done. Qed.

Lemma update_run r f o st :
  heap st !! r = Some o →
  update r f st = (inl tt, set_heap (<[r := f o]> (heap st)) st).
Proof. intros H. unfold update, deref, mbind, M_bind. by rewrite H. Qed.

Lemma for_each_update {A} (f : A → NoBaseException.t → NoBaseException.t) l :
  ∀ r o st, heap st !! r = Some o →
    for_each l (λ x, update r (f x)) st
    = (inl tt, set_heap (<[r := foldl (λ o x, f x o) o l]> (heap st)) st).
Proof.
  induction l as [|x l IH]; intros r o st H; simpl.
  - rewrite list_insert_id by done. by rewrite set_heap_id.
  - erewrite bind_ok; [|by apply update_run].
    erewrite IH.
    2:{ simpl. apply list_lookup_insert_eq. by eapply lookup_lt_Some. }
    simpl. by rewrite list_insert_insert_eq.
Qed.

Lemma for_each_extra (st0 : State) l :
  ∀ r o st, heap st !! r = Some o → _registry st = _registry st0 →
    for_each l (λ extra,
      st' ← get_state;
      let msg := (NoModule.registry_get st' extra
                    ("", "Error " +:+ str_of_int extra, [], false)).1.1.2 in
      let extraSoft := (NoModule.registry_get st' extra ("", "", [], false)).2 in
      update r (NoBaseException.addCode extra (Some msg));;
      update r (NoBaseException.setSoft extra extraSoft)) st
    = (inl tt,
       set_heap (<[r := foldl (λ o extra,
           NoBaseException.setSoft extra
             (NoModule.registry_get st0 extra ("", "", [], false)).2
             (NoBaseException.addCode extra
                (Some (NoModule.registry_get st0 extra
                         ("", "Error " +:+ str_of_int extra, [], false)).1.1.2) o))
           o l]> (heap st)) st).
Proof.
  induction l as [|x l IH]; intros r o st H Hreg; simpl.
  - rewrite list_insert_id by done. by rewrite set_heap_id.
  - assert (Hlt : r < length (heap st)) by by eapply lookup_lt_Some.
    erewrite bind_ok.
    2:{ erewrite bind_ok; [|reflexivity]. cbv zeta.
        erewrite bind_ok; [|by apply update_run].
        apply update_run. simpl. by apply list_lookup_insert_eq. }
    simpl.
    rewrite (IH r (NoBaseException.setSoft x
             (NoModule.registry_get st x ("", "", [], false)).2
             (NoBaseException.addCode x
                (Some (NoModule.registry_get st x
                         ("", "Error " +:+ str_of_int x, [], false)).1.1.2) o))); simpl.
    + rewrite !list_insert_insert_eq. unfold NoModule.registry_get.
      by rewrite Hreg.
    + rewrite list_insert_insert_eq. by apply list_lookup_insert_eq.
    + done.
Qed.

(** ** Dictionaries *)

Section DictFacts.
Context {K V : Type} `{EqDecision K}.
Implicit Types (d : list (K * V)) (k : K) (v : V).

Lemma dict_get_set_eq d k v : dict_get (dict_set d k v) k = Some v.
Proof.
  induction d as [|[k' v'] d IH]; simpl.
  - by rewrite decide_True.
  - destruct (decide (k = k')) as [->|Hne]; simpl.
    + by rewrite decide_True.
    + by rewrite decide_False.
Qed.

Lemma dict_mem_set_eq d k v : dict_mem (dict_set d k v) k = true.
Proof. unfold dict_mem. by rewrite dict_get_set_eq. Qed.

Lemma dict_mem_set_mono d k k' v :
  dict_mem d k' = true → dict_mem (dict_set d k v) k' = true.
Proof.
  unfold dict_mem. induction d as [|[k0 v0] d IH]; simpl; [done|].
  destruct (decide (k = k0)) as [->|Hne]; simpl;
    destruct (decide (k' = k0)); auto.
Qed.

Lemma dict_set_absent d k v : dict_mem d k = false → dict_set d k v = d ++ [(k, v)].
Proof.
  unfold dict_mem. induction d as [|[k0 v0] d IH]; simpl; [done|].
  destruct (decide (k = k0)); [done|]. intros Hd. by rewrite IH.
Qed.
End DictFacts.

(** ** Methods of the exception object *)

Lemma foldl_preserves {A B} (P : A → Prop) (f : A → B → A) l :
  (∀ a b, P a → P (f a b)) → ∀ a, P a → P (foldl f a l).
Proof. intros Hf. induction l as [|x l IH]; simpl; auto. Qed.

Lemma setSoft_nos c b o :
  NoBaseException.nos (NoBaseException.setSoft c b o) = NoBaseException.nos o.
Proof. done. Qed.

Lemma addMessage_falsy c m o :
  truthy m = false → NoBaseException.addMessage c m o = o.
Proof. by destruct m as [[|a s]|]. Qed.

(** *** Methods of the exception object *)
Lemma addCode_mem c d o :
  dict_mem (NoBaseException.nos (NoBaseException.addCode c d o)) c = true.
Proof.
  unfold NoBaseException.addCode.
  destruct (dict_mem (NoBaseException.nos o) c) eqn:E; [done|].
  simpl. apply dict_mem_set_eq.
Qed.

Lemma addCode_mono c d o c' :
  dict_mem (NoBaseException.nos o) c' = true →
  dict_mem (NoBaseException.nos (NoBaseException.addCode c d o)) c' = true.
Proof.
  unfold NoBaseException.addCode.
  destruct (dict_mem (NoBaseException.nos o) c); [done|].
  simpl. apply dict_mem_set_mono.
Qed.

Lemma addMessage_mem c m o :
  dict_mem (NoBaseException.nos o) c = true ∨ truthy m = true →
  dict_mem (NoBaseException.nos (NoBaseException.addMessage c m o)) c = true.
Proof.
  unfold NoBaseException.addMessage.
  destruct m as [[|a s]|]; simpl; intros [?|?]; try done;
    apply dict_mem_set_eq.
Qed.

Lemma init_mem cls c m codes l d s :
  dict_mem (NoBaseException.nos (NoBaseException.__init__ cls c m codes l d s)) c = true.
Proof.
  unfold NoBaseException.__init__. simpl.
  set (nos1 := if dict_mem _ c then _ else _).
  assert (dict_mem nos1 c = true) as H1.
  { unfold nos1. destruct (dict_mem (default [] codes) c) eqn:E; [done|].
    apply dict_mem_set_eq. }
  destruct m as [[|a r]|]; simpl; auto using dict_mem_set_eq.
Qed.

Lemma init_nos_fresh cls c m l d s :
  NoBaseException.nos (NoBaseException.__init__ cls c m None l d s)
  = [(c, str_or d ("Error " +:+ str_of_int c)
         :: match m with Some msg => if truthy m then [msg] else [] | None => [] end)].
Proof.
  unfold NoBaseException.__init__. simpl.
  destruct m as [[|a r]|]; simpl; try done. by repeat case_decide.
Qed.

(** ** Running module.py and call.py *)

Lemma makeOne_run code complaint linked st :
  NoModule._makeOne code complaint linked st
  = (inl (length (heap st)),
     set_heap (heap st ++ [made st code complaint linked]) st).
Proof.
  unfold NoModule._makeOne, made.
  erewrite bind_ok; [|reflexivity].
  destruct (NoModule.registry_get st code _) as [[[excName defaultMsg] linkedCodes] softFlag].
  erewrite bind_ok; [|reflexivity].
  erewrite bind_ok.
  2:{ apply for_each_update. simpl. by apply list_lookup_middle. }
  erewrite bind_ok.
  2:{ eapply (for_each_extra st); [|done]. simpl.
      apply list_lookup_insert_eq. rewrite length_app. simpl. lia. }
  simpl. rewrite list_insert_insert_eq.
  unfold mret, M_ret. f_equal.
  destruct st; unfold set_heap; simpl. f_equal.
  rewrite insert_app_r_alt by done. by rewrite Nat.sub_diag.
Qed.

Lemma made_mem st c m l : dict_mem (NoBaseException.nos (made st c m l)) c = true.
Proof.
  unfold made.
  destruct (NoModule.registry_get st c _) as [[[excName defaultMsg] linkedCodes] softFlag].
  apply (foldl_preserves (λ o, dict_mem (NoBaseException.nos o) c = true)).
  { intros o x Ho. simpl. by apply addCode_mono. }
  apply (foldl_preserves (λ o, dict_mem (NoBaseException.nos o) c = true)).
  { intros o x Ho. done. }
  apply init_mem.
Qed.

Lemma construct_like_run self o c m st :
  heap st !! self = Some o →
  construct_like self c m st
  = (inl (length (heap st)),
     set_heap (heap st ++ [NoBaseException.__init__ (NoBaseException.cls o) c m
                             None None None None]) st).
Proof. intros H. unfold construct_like, deref, mbind, M_bind. by rewrite H. Qed.

Lemma getRegistryEntry_module c st :
  _getRegistryEntry CtxModule c st
  = (inl ((NoModule.registry_get st c ("", "Error " +:+ str_of_int c, [], false)).2,
          (NoModule.registry_get st c ("", "Error " +:+ str_of_int c, [], false)).1.1.2),
     st).
Proof. done. Qed.

Lemma getRegistryEntry_instance self o c st :
  heap st !! self = Some o →
  _getRegistryEntry (CtxException self) c st
  = (inl (default false (dict_get (NoBaseException._softCodes o) c),
          "Error " +:+ str_of_int c), st).
Proof. intros H. unfold _getRegistryEntry, deref, mbind, M_bind. by rewrite H. Qed.

Lemma handleSoftOrRaise_run exc o softFlag soften st :
  heap st !! exc = Some o →
  _handleSoftOrRaise exc softFlag soften st
  = if softFlag || soften then (inl tt, set_thread_pending (Some (Some exc)) st)
    else if hideTraceback st
         then (inr (SystemExit 1),
               set_stdout (stdout st ++ [NoBaseException.str o]) st)
         else (inr (ExcNo exc), st).
Proof.
  intros H. unfold _handleSoftOrRaise.
  destruct (softFlag || soften); [done|].
  unfold raze, deref, get_state. unfold mbind, M_bind.
  destruct (hideTraceback st); [|done]. by rewrite H.
Qed.

Lemma maybe_addMessage_run r o c complaint st :
  heap st !! r = Some o →
  (if truthy complaint
   then update r (NoBaseException.addMessage c complaint)
   else mret tt) st
  = (inl tt,
     set_heap (<[r := NoBaseException.addMessage c complaint o]> (heap st)) st).
Proof.
  intros H. destruct (truthy complaint) eqn:E; [by apply update_run|].
  rewrite addMessage_falsy, list_insert_id, set_heap_id by done. done.
Qed.

#[local] Arguments NoBaseException.addMessage : simpl never.
#[local] Arguments NoBaseException.addCode : simpl never.
#[local] Arguments NoBaseException.setSoft : simpl never.
#[local] Arguments NoBaseException._recordLinkedException : simpl never.
#[local] Arguments NoBaseException.__init__ : simpl never.
#[local] Arguments made : simpl never.

Ltac solve_lookup :=
  simpl;
  first
    [ eassumption
    | apply list_lookup_middle; reflexivity
    | apply list_lookup_insert_eq; rewrite ?length_insert, ?length_app; simpl;
      eauto using lookup_lt_Some with lia
    | rewrite list_lookup_insert_eq by
        (rewrite ?length_insert, ?length_app; simpl; eauto using lookup_lt_Some with lia);
      reflexivity
    | apply lookup_app_l_Some; solve_lookup ].

Ltac run_step :=
  erewrite bind_ok by
    first [ apply get_state_run | apply ret_run | apply getPending_run
          | apply makeOne_run | apply getRegistryEntry_module
          | eapply getRegistryEntry_instance; solve_lookup
          | eapply maybe_addMessage_run; solve_lookup
          | eapply update_run; solve_lookup
          | eapply construct_like_run; solve_lookup ].

Lemma handleCall_empty ctx complaint soften st :
  _handleCall ctx [] complaint soften st = _handleEmptyCall ctx st.
Proof. by destruct complaint, soften. Qed.

Lemma handleCall_list ctx codes complaint soften st :
  _handleCall ctx [AList codes] complaint soften st
  = _handleExceptionGroup ctx codes complaint st.
Proof. by destruct complaint, soften. Qed.

Lemma handleCall_single ctx c complaint soften st :
  _handleCall ctx [AInt c] complaint soften st
  = _handleSingleCode ctx c complaint soften None st.
Proof. by destruct complaint, soften. Qed.

Lemma handleCall_message ctx c msg complaint soften st :
  _handleCall ctx [AInt c; AStr msg] complaint soften st
  = _handleCodeMessage ctx c msg soften st.
Proof. by destruct complaint, soften. Qed.

Lemma handleCall_link ctx c e complaint soften st :
  _handleCall ctx [AInt c; AExc e] complaint soften st
  = _handleCodeExceptionLink ctx c e complaint soften st.
Proof. by destruct complaint, soften. Qed.

(** The merge of a single-code call into an existing pending state
    (step 3a), for either kind of receiver. *)
Lemma pending_merge_run ctx c complaint soften st p o softFlag defaultMsg :
  NoModule.stash_of st = Some p →
  heap st !! p = Some o →
  _getRegistryEntry ctx c st = (inl (softFlag, defaultMsg), st) →
  _handleCall ctx [AInt c] complaint soften st
  = (inl tt,
     set_thread_pending (Some (Some p))
       (set_heap (<[p := NoBaseException.setSoft c softFlag
                           (NoBaseException.addMessage c complaint
                              (NoBaseException.addCode c (Some defaultMsg) o))]>
                    (heap st)) st)).
Proof.
  intros Hp Ho Hentry. rewrite handleCall_single. unfold _handleSingleCode.
  erewrite bind_ok by apply Hentry. cbv beta iota.
  run_step. rewrite Hp. cbv beta iota.
  do 3 run_step. unfold _setPending, modify_state. simpl.
  by rewrite !list_insert_insert_eq.
Qed.

(** ** Raise-or-stash *)

Lemma policy_outcome_intro c exc o softFlag soften st0 st :
  heap st !! exc = Some o →
  dict_mem (NoBaseException.nos o) c = true →
  hideTraceback st = hideTraceback st0 → stdout st = stdout st0 →
  policy_outcome exc c softFlag soften st0
    (_handleSoftOrRaise exc softFlag soften st).1
    (_handleSoftOrRaise exc softFlag soften st).2.
Proof.
  intros H Hc Hh Hs. rewrite (handleSoftOrRaise_run _ _ _ _ _ H).
  unfold policy_outcome, holds_code. rewrite <- Hh.
  destruct (softFlag || soften); simpl.
  - split; [done|]. split; [done|]. by exists o.
  - destruct (hideTraceback st); simpl.
    + split; [done|]. exists o. by rewrite Hs.
    + split; [done|]. by exists o.
Qed.

Lemma policy_outcome_bind_raise c exc o softFlag soften st0 st (k : unit → M unit) :
  heap st !! exc = Some o →
  dict_mem (NoBaseException.nos o) c = true →
  hideTraceback st = hideTraceback st0 → stdout st = stdout st0 →
  softFlag || soften = false →
  policy_outcome exc c softFlag soften st0
    ((_handleSoftOrRaise exc softFlag soften ≫= k) st).1
    ((_handleSoftOrRaise exc softFlag soften ≫= k) st).2.
Proof.
  intros H Hc Hh Hs Hsoft.
  assert ((_handleSoftOrRaise exc softFlag soften ≫= k) st
          = _handleSoftOrRaise exc softFlag soften st) as ->.
  { unfold mbind, M_bind. rewrite (handleSoftOrRaise_run _ _ _ _ _ H), Hsoft.
    by destruct (hideTraceback st). }
  by eapply policy_outcome_intro.
Qed.

Lemma policy_module_single c complaint soften st :
  NoModule.stash_of st = None →
  let sf := (NoModule.registry_get st c ("", "Error " +:+ str_of_int c, [], false)).2 in
  policy_outcome (length (heap st)) c sf soften st
    (_handleCall CtxModule [AInt c] complaint soften st).1
    (_handleCall CtxModule [AInt c] complaint soften st).2.
Proof.
  intros Hp sf.
  rewrite handleCall_single. unfold _handleSingleCode.
  run_step. cbv beta iota. run_step. rewrite Hp. cbv beta iota.
  run_step. run_step. run_step.
  eapply policy_outcome_intro; try done.
  - solve_lookup.
  - apply made_mem.
Qed.

Lemma policy_module_message c msg soften st :
  NoModule.stash_of st = None →
  policy_outcome (length (heap st)) c
    (NoModule.registry_get st c ("", "Error " +:+ str_of_int c, [], false)).2
    soften st
    (_handleCodeMessage CtxModule c msg soften st).1
    (_handleCodeMessage CtxModule c msg soften st).2.
Proof.
  intros Hp. unfold _handleCodeMessage.
  run_step. cbv beta iota. run_step. rewrite Hp. cbv beta iota.
  do 2 run_step.
  eapply policy_outcome_intro; try done; [solve_lookup|apply made_mem].
Qed.

Lemma policy_module_link c e complaint soften st :
  policy_outcome (length (heap st)) c
    (NoModule.registry_get st c ("", "Error " +:+ str_of_int c, [], false)).2
    soften st
    (_handleCodeExceptionLink CtxModule c e complaint soften st).1
    (_handleCodeExceptionLink CtxModule c e complaint soften st).2.
Proof.
  unfold _handleCodeExceptionLink.
  run_step. cbv beta iota. run_step.
  eapply policy_outcome_intro; try done; [solve_lookup|apply made_mem].
Qed.

Lemma policy_instance_single self c complaint soften st o :
  heap st !! self = Some o →
  NoModule.stash_of st = None →
  let sf := default false (dict_get (NoBaseException._softCodes o) c) in
  sf || soften = false →
  policy_outcome self c sf soften st
    (_handleCall (CtxException self) [AInt c] complaint soften st).1
    (_handleCall (CtxException self) [AInt c] complaint soften st).2.
Proof.
  intros Ho Hp sf Hsoft. subst sf. rewrite handleCall_single. unfold _handleSingleCode.
  run_step. cbv beta iota. run_step. rewrite Hp. cbv beta iota.
  run_step.
  rewrite bind_assoc. run_step. rewrite bind_assoc. run_step.
  rewrite bind_assoc. run_step.
  eapply policy_outcome_bind_raise; try done; [solve_lookup|].
  rewrite setSoft_nos. apply addMessage_mem. left. apply addCode_mem.
Qed.

Lemma policy_instance_message self c msg soften st o :
  heap st !! self = Some o →
  NoModule.stash_of st = None →
  default false (dict_get (NoBaseException._softCodes o) c) || soften = false →
  policy_outcome self c (default false (dict_get (NoBaseException._softCodes o) c))
    soften st
    (_handleCodeMessage (CtxException self) c msg soften st).1
    (_handleCodeMessage (CtxException self) c msg soften st).2.
Proof.
  intros Ho Hp Hsoft. unfold _handleCodeMessage.
  run_step. cbv beta iota. run_step. rewrite Hp. cbv beta iota.
  rewrite bind_assoc. run_step. rewrite bind_assoc. run_step.
  rewrite bind_assoc. run_step.
  eapply policy_outcome_bind_raise; try done; [solve_lookup|].
  rewrite setSoft_nos. apply addMessage_mem. left. apply addCode_mem.
Qed.

Lemma policy_instance_link self c e complaint soften st o :
  heap st !! self = Some o →
  policy_outcome self c (default false (dict_get (NoBaseException._softCodes o) c))
    soften st
    (_handleCodeExceptionLink (CtxException self) c e complaint soften st).1
    (_handleCodeExceptionLink (CtxException self) c e complaint soften st).2.
Proof.
  intros Ho. unfold _handleCodeExceptionLink.
  run_step. cbv beta iota. do 2 run_step.
  eapply policy_outcome_intro; try done; [solve_lookup|].
  simpl. apply addCode_mem.
Qed.

(** [e(1001)] on an exception [e] that has no soft flag of its own for
    1001 raises [e], although the registry holds 1001 as soft. *)
Lemma C1_counterexample :
  ¬ raise_or_stash_as_specified (CtxException 0) 1001 [AInt 1001] None false
      soft_1001_with_receiver_7.
Proof. intros [H _]. vm_compute in H. discriminate. Qed.

(** C1 (amended).  Raise-or-stash.  [_handleSoftOrRaise] stores the
    exception in the pending slot and returns normally when the soft
    flag it is given or [soften] is true; otherwise it raises the
    exception, except that in hide-traceback mode it prints the
    exception's text and exits with status 1.  Every call shape that
    reaches it (a single code or a code and a message while nothing is
    pending, a code with an exception to link), on the module or on a
    live exception, ends that way for the very exception the call
    produced or augmented, the new one on the module and the receiver
    on an exception, which holds the code; the flag is the one
    [_getRegistryEntry] looks up: the registry's on the module, the
    receiver's own on an exception.  Where the handler goes on after
    the step (a single code, or a code and a message, on an exception)
    this is stated for the raising branch. *)
Theorem C1_raise_or_stash :
  (∀ exc o softFlag soften st,
     heap st !! exc = Some o →
     _handleSoftOrRaise exc softFlag soften st
     = if softFlag || soften
       then (inl tt, set_thread_pending (Some (Some exc)) st)
       else if hideTraceback st
            then (inr (SystemExit 1),
                  set_stdout (stdout st ++ [NoBaseException.str o]) st)
            else (inr (ExcNo exc), st))
  ∧
  (∀ c st,
     _getRegistryEntry CtxModule c st
     = (inl ((NoModule.registry_get st c
                ("", "Error " +:+ str_of_int c, [], false)).2,
             (NoModule.registry_get st c
                ("", "Error " +:+ str_of_int c, [], false)).1.1.2), st))
  ∧
  (∀ self o c st,
     heap st !! self = Some o →
     _getRegistryEntry (CtxException self) c st
     = (inl (default false (dict_get (NoBaseException._softCodes o) c),
             "Error " +:+ str_of_int c), st))
  ∧
  (∀ ctx c args complaint soften st softFlag defaultMsg,
     ctx_live st ctx →
     reaches_policy st c args →
     _getRegistryEntry ctx c st = (inl (softFlag, defaultMsg), st) →
     policy_is_last ctx args = true ∨ softFlag || soften = false →
     policy_outcome (policy_target ctx st) c softFlag soften st
       (_handleCall ctx args complaint soften st).1
       (_handleCall ctx args complaint soften st).2).
Proof.
  split; [apply handleSoftOrRaise_run|].
  split; [apply getRegistryEntry_module|].
  split; [apply getRegistryEntry_instance|].
  intros ctx c args complaint soften st softFlag defaultMsg Hlive Hshape Hentry Hlast.
  destruct ctx as [|self].
  - rewrite getRegistryEntry_module in Hentry. injection Hentry as <- _.
    destruct Hshape as [Hp|msg Hp|e].
    + by apply policy_module_single.
    + rewrite handleCall_message. by apply policy_module_message.
    + rewrite handleCall_link. apply policy_module_link.
  - destruct Hlive as [o Ho].
    rewrite (getRegistryEntry_instance _ _ _ _ Ho) in Hentry.
    injection Hentry as <- _.
    destruct Hshape as [Hp|msg Hp|e].
    + destruct Hlast as [?|Hhard]; [done|]. by apply policy_instance_single.
    + destruct Hlast as [?|Hhard]; [done|].
      rewrite handleCall_message. by apply policy_instance_message.
    + rewrite handleCall_link. by apply policy_instance_link.
Qed.

Lemma C1_raise_or_stash_witness :
  _handleSoftOrRaise 0 false false with_receiver_7
  = (inr (ExcNo 0), with_receiver_7)
  ∧ policy_outcome 0 1001 true false registered_soft_1001
      (_handleCall CtxModule [AInt 1001] None false registered_soft_1001).1
      (_handleCall CtxModule [AInt 1001] None false registered_soft_1001).2.
Proof.
  split.
  - eapply (proj1 C1_raise_or_stash 0 _ false false with_receiver_7).
    reflexivity.
  - apply (proj2 (proj2 (proj2 C1_raise_or_stash)) CtxModule 1001%Z
             [AInt 1001] None false registered_soft_1001 true "Error 1001").
    + exact I.
    + constructor. reflexivity.
    + reflexivity.
    + left. reflexivity.
Defined.

(** ** Repeated soft calls with one code *)

(** Merging the same code again into an exception that holds only that
    code, with a message cache that is absent or current. *)
Lemma merge_same_code_object c d b complaint o msgs :
  NoBaseException.nos o = [(c, msgs)] →
  (NoBaseException._nos_defaultdict o = None
   ∨ NoBaseException._nos_defaultdict o = Some (NoBaseException.nos o)) →
  let o' := NoBaseException.setSoft c b
              (NoBaseException.addMessage c complaint
                 (NoBaseException.addCode c d o)) in
  NoBaseException.nos o' = [(c, msgs ++ complaint_list complaint)]
  ∧ (NoBaseException._nos_defaultdict o' = None
     ∨ NoBaseException._nos_defaultdict o' = Some (NoBaseException.nos o')).
Proof.
  intros Hnos Hdd o'. subst o'.
  assert (NoBaseException.addCode c d o = o) as ->.
  { unfold NoBaseException.addCode, dict_mem. rewrite Hnos. simpl.
    by rewrite decide_True. }
  rewrite setSoft_nos.
  unfold NoBaseException.setSoft, NoBaseException.set_softCodes. simpl.
  destruct complaint as [[|a s]|]; simpl; rewrite ?app_nil_r; try done.
  unfold NoBaseException.addMessage. simpl.
  assert (match NoBaseException._nos_defaultdict o with
          | Some d0 => d0
          | None => NoBaseException.nos o
          end = [(c, msgs)]) as ->.
  { destruct Hdd as [->| ->]; done. }
  simpl. rewrite !decide_True by done. simpl. split; [done|by right].
Qed.

Lemma merge_same_code_calls c name r complaints :
  ∀ st o msgs,
    _registry st !! c = Some (name, "Error " +:+ str_of_int c, [], true) →
    thread_pending st = Some (Some r) →
    heap st !! r = Some o →
    NoBaseException.nos o = [(c, msgs)] →
    (NoBaseException._nos_defaultdict o = None
     ∨ NoBaseException._nos_defaultdict o = Some (NoBaseException.nos o)) →
    ∃ st' o',
      repeat_single CtxModule c complaints st = (inl tt, st')
      ∧ thread_pending st' = Some (Some r)
      ∧ heap st' !! r = Some o'
      ∧ NoBaseException.nos o'
        = [(c, msgs ++ concat (complaint_list <$> complaints))].
Proof.
  induction complaints as [|m ms IH]; intros st o msgs Hreg Htp Ho Hnos Hdd.
  - exists st, o. simpl. by rewrite app_nil_r.
  - unfold repeat_single. simpl.
    erewrite bind_ok.
    2:{ eapply pending_merge_run; [|done|apply getRegistryEntry_module].
        unfold NoModule.stash_of. by rewrite Htp. }
    edestruct (merge_same_code_object c) as [Hnos' Hdd']; [exact Hnos|exact Hdd|].
    edestruct IH as (st' & o' & Hrun & Htp' & Ho' & Hn'); cycle 5.
    + exists st', o'. split; [exact Hrun|]. split; [done|]. split; [done|].
      rewrite Hn', <- app_assoc. done.
    + done.
    + done.
    + solve_lookup.
    + exact Hnos'.
    + exact Hdd'.
Qed.

(** After [no.likey(1001, soft=True)] and three calls [no(1001)] the
    pending exception holds {1001: ["Error 1001"]}, not three copies of
    the message; and on an exception [e] without a soft flag of its own
    the first call [e(1001)] already raises. *)
Lemma C2_counterexample :
  ¬ three_calls_as_specified CtxModule 1001 registered_soft_1001
  ∧ ¬ three_calls_as_specified (CtxException 0) 1001 soft_1001_with_receiver_7.
Proof.
  split.
  - intros (_ & H & _). vm_compute in H. discriminate.
  - intros (H & _). vm_compute in H. discriminate.
Qed.

(** C2 (amended).  For a code [c] registered soft with the default
    message and no linked codes, one or more single-code calls on the
    module from a state with nothing pending all return normally, and
    the pending exception then has the single key [c] whose messages
    are "Error c" once, followed by the non-empty complaints of the
    calls in order: a repeated call adds a message only when it carries
    a complaint. *)
Theorem C2_same_code_soft_calls c name first rest handled st :
  _registry st !! c = Some (name, "Error " +:+ str_of_int c, [], true) →
  NoModule.stash_of st = None →
  let r := repeat_single CtxModule c (first :: rest) st in
  let messages := ("Error " +:+ str_of_int c)
                    :: concat (complaint_list <$> first :: rest) in
  r.1 = inl tt
  ∧ (NoModule.nos handled r.2).1 = inl [(c, messages)]
  ∧ (NoModule.complaints handled r.2).1 = inl messages.
Proof.
  intros Hreg Hp r messages. subst r messages.
  unfold repeat_single. cbn [for_each].
  assert (Hfirst : _handleCall CtxModule [AInt c] first false st
                   = (inl tt, set_thread_pending (Some (Some (length (heap st))))
                                (set_heap (heap st ++ [made st c first []]) st))).
  { rewrite handleCall_single. unfold _handleSingleCode.
    run_step. cbv beta iota. run_step. rewrite Hp. cbv beta iota.
    do 3 run_step. erewrite handleSoftOrRaise_run by solve_lookup.
    unfold NoModule.registry_get. by rewrite Hreg. }
  erewrite bind_ok by exact Hfirst.
  assert (Hmade : NoBaseException.nos (made st c first [])
                  = [(c, ["Error " +:+ str_of_int c] ++ complaint_list first)]
                  ∧ NoBaseException._nos_defaultdict (made st c first []) = None).
  { assert (made st c first []
              = NoBaseException.__init__ name c first None (Some [])
                  (Some ("Error " +:+ str_of_int c)) (Some [(c, true)])) as ->
      by (unfold made, NoModule.registry_get; by rewrite Hreg).
    rewrite init_nos_fresh. split; [|done]. by destruct first as [[|a s]|]. }
  destruct Hmade as [Hnos Hdd].
  destruct (merge_same_code_calls c name (length (heap st)) rest
              (set_thread_pending (Some (Some (length (heap st))))
                 (set_heap (heap st ++ [made st c first []]) st))
              (made st c first [])
              (["Error " +:+ str_of_int c] ++ complaint_list first))
    as (st' & o' & Hrun & Htp' & Ho' & Hn');
    [done|done|solve_lookup|exact Hnos|by left|].
  fold (repeat_single CtxModule c rest). rewrite Hrun. cbn [fst snd].
  split; [done|].
  unfold NoModule.nos, NoModule.complaints.
  erewrite !bind_ok by apply get_state_run.
  unfold NoModule.stash_of. rewrite Htp'.
  unfold deref. unfold mbind, M_bind. rewrite Ho'. cbn [fst snd].
  rewrite Hn'. unfold mret, M_ret. cbn [fst snd dict_values fmap list_fmap concat].
  rewrite app_nil_r. done.
Qed.

Lemma C2_same_code_soft_calls_witness :
  let r := repeat_single CtxModule 1001 [None; None; None] registered_soft_1001 in
  r.1 = inl tt
  ∧ (NoModule.nos None r.2).1 = inl [(1001%Z, ["Error 1001"])]
  ∧ (NoModule.complaints None r.2).1 = inl ["Error 1001"].
Proof.
  apply (C2_same_code_soft_calls 1001 "Error1001" None [None; None] None
           registered_soft_1001); reflexivity.
Defined.

(** ** Merging into the pending state *)

(** Without a message cache the merged entry is what the pending state
    held for the code, or else the default message, followed by the
    complaint. *)
Lemma merge_entry_without_cache c softFlag defaultMsg complaint o :
  NoBaseException._nos_defaultdict o = None →
  dict_get (NoBaseException.nos
              (NoBaseException.setSoft c softFlag
                 (NoBaseException.addMessage c complaint
                    (NoBaseException.addCode c (Some defaultMsg) o)))) c
  = Some (default [str_or (Some defaultMsg) ("Error " +:+ str_of_int c)]
            (dict_get (NoBaseException.nos o) c)
          ++ complaint_list complaint).
Proof.
  intros Hdd. rewrite setSoft_nos.
  set (o1 := NoBaseException.addCode c (Some defaultMsg) o).
  assert (H1 : NoBaseException._nos_defaultdict o1 = None
               ∧ dict_get (NoBaseException.nos o1) c
                 = Some (default [str_or (Some defaultMsg) ("Error " +:+ str_of_int c)]
                           (dict_get (NoBaseException.nos o) c))).
  { unfold o1, NoBaseException.addCode, dict_mem.
    destruct (dict_get (NoBaseException.nos o) c) as [l|] eqn:E; simpl.
    - by rewrite E.
    - split; [done|]. by rewrite dict_get_set_eq. }
  destruct H1 as [Hdd1 Hget1]. clearbody o1.
  unfold NoBaseException.addMessage.
  destruct complaint as [[|a s]|]; simpl; rewrite ?app_nil_r; try done.
  rewrite Hdd1, dict_get_set_eq, Hget1. done.
Qed.

(** C3.  After [no.likey(1, soft=True); no(1); no(1, complaint="a")] the
    pending exception holds {1: ["Error 1", "a"]}.  The call
    [no(2, complaint="b")] returns normally and keeps it pending, but
    the merged entry for code 2 is ["b"]: the default message "Error 2"
    written by [addCode] is dropped by [addMessage], which rebuilds the
    code map from a cache taken before code 2 was added. *)
Theorem C3_merge_loses_default_message :
  NoModule.stash_of pending_with_message_cache = Some 0
  ∧ (NoModule.nos None pending_with_message_cache).1
    = inl [(1%Z, ["Error 1"; "a"])]
  ∧ _registry pending_with_message_cache !! 2%Z = None
  ∧ ∃ st',
      _handleCall CtxModule [AInt 2] (Some "b") false pending_with_message_cache
      = (inl tt, st')
      ∧ NoModule.stash_of st' = Some 0
      ∧ (NoModule.nos None st').1
        = inl [(1%Z, ["Error 1"; "a"]); (2%Z, ["b"])].
Proof.
  split; [done|]. split; [done|]. split; [done|].
  eexists. split; [vm_compute; reflexivity|]. done.
Qed.

(** ** The empty call *)

Lemma empty_call_run ctx st :
  ctx_live st ctx → pending_live st →
  ∃ o, heap (empty_call_state ctx st) !! empty_call_target ctx st = Some o
     ∧ _handleEmptyCall ctx st
       = if hideTraceback st
         then (inr (SystemExit 1),
               set_stdout (stdout st ++ [NoBaseException.str o])
                 (empty_call_state ctx st))
         else (inr (ExcNo (empty_call_target ctx st)), empty_call_state ctx st).
Proof.
  intros Hctx Hpl. unfold _handleEmptyCall, empty_call_target, empty_call_state.
  do 2 run_step.
  destruct (NoModule.stash_of st) as [p|] eqn:Hp.
  - unfold pending_live in Hpl. rewrite Hp in Hpl.
    destruct Hpl as [o Ho]. exists o. split; [done|].
    unfold raze, deref. unfold mbind, M_bind.
    destruct (hideTraceback st); [by rewrite Ho|done].
  - destruct ctx as [|self].
    + exists (made st 0 None []). split; [solve_lookup|].
      run_step. unfold raze, deref. unfold mbind, M_bind.
      destruct (hideTraceback st); [|done].
      simpl. by rewrite list_lookup_middle.
    + destruct Hctx as [o Ho]. exists o. split; [done|].
      unfold raze, deref. unfold mbind, M_bind.
      destruct (hideTraceback st); [by rewrite Ho|done].
Qed.

Lemma dice_clears st : NoModule.stash_of (exec NoModule.dice st) = None.
Proof.
  unfold exec, NoModule.dice, modify_state, NoModule.stash_of. simpl.
  destruct (thread_pending st) eqn:E; simpl; [done|by rewrite E].
Qed.

(** [e()] on [e = no.way(7)] with nothing pending raises [e], which has
    no code 0; and in hide-traceback mode [no()] with a pending
    exception exits instead of raising it. *)
Lemma C4_counterexample :
  ¬ empty_call_as_specified (CtxException 0) None false with_receiver_7
  ∧ ¬ empty_call_as_specified CtxModule None false hidden_with_pending.
Proof.
  split.
  - intros (r & Hres & o & Ho & Hc). vm_compute in Hres.
    injection Hres as <-. vm_compute in Ho. injection Ho as <-.
    vm_compute in Hc. discriminate.
  - intros H. vm_compute in H. discriminate.
Qed.

(** C4 (amended).  An empty call with tracebacks shown raises the pending
    exception when there is one and leaves the state as it is, so the
    next empty call raises it again, until [dice] empties both slots.
    With nothing pending, a module-level call raises a new exception
    holding code 0, and a call on an exception raises that receiver.
    In hide-traceback mode the text of the same exception is printed
    and the interpreter exits with status 1 instead. *)
Theorem C4_empty_call ctx complaint soften st :
  ctx_live st ctx → pending_live st →
  let r := empty_call_target ctx st in
  let st1 := empty_call_state ctx st in
  (∃ o, heap st1 !! r = Some o
      ∧ _handleCall ctx [] complaint soften st
        = if hideTraceback st
          then (inr (SystemExit 1),
                set_stdout (stdout st ++ [NoBaseException.str o]) st1)
          else (inr (ExcNo r), st1))
  ∧ (∀ p, NoModule.stash_of st = Some p →
       r = p ∧ st1 = st ∧
       (hideTraceback st = false →
        _handleCall ctx [] complaint soften st1 = (inr (ExcNo p), st1)))
  ∧ (NoModule.stash_of st = None →
       match ctx with
       | CtxModule => r = length (heap st) ∧ holds_code st1 r 0
       | CtxException self => r = self ∧ st1 = st
       end)
  ∧ NoModule.stash_of (exec NoModule.dice st1) = None.
Proof.
  intros Hctx Hpl r st1. subst r st1. repeat split.
  - rewrite handleCall_empty. by apply empty_call_run.
  - unfold empty_call_target. by rewrite H.
  - unfold empty_call_state. by rewrite H.
  - intros Hh. rewrite handleCall_empty.
    assert (Hst : empty_call_state ctx st = st)
      by (unfold empty_call_state; by rewrite H).
    rewrite Hst.
    destruct (empty_call_run ctx st Hctx Hpl) as (o & _ & ->).
    rewrite Hh, Hst. unfold empty_call_target. by rewrite H.
  - intros Hp. unfold empty_call_target, empty_call_state. rewrite Hp.
    destruct ctx as [|self]; [|done].
    split; [done|]. exists (made st 0 None []). split; [solve_lookup|apply made_mem].
  - apply dice_clears.
Qed.

Lemma C4_empty_call_witness :
  _handleCall (CtxException 0) [] None false with_receiver_7
  = (inr (ExcNo 0), with_receiver_7).
Proof.
  destruct (C4_empty_call (CtxException 0) None false with_receiver_7)
    as [(o & _ & Hrun) _].
  - vm_compute. eexists. reflexivity.
  - exact I.
  - exact Hrun.
Defined.

(** ** Registration *)

(** C5.  Registration is write-once: [likey] never raises, the entry
    for [c] after it is the one present before, or else the one just
    given, and a second [likey] for [c], whatever its arguments, leaves
    the whole state as it is. *)
Theorem C5_likey_write_once c m1 l1 s1 m2 l2 s2 st :
  let first := ("Error" +:+ str_of_int c,
                str_or (Some m1) ("Error " +:+ str_of_int c),
                default [] l1, s1) in
  let st1 := exec (NoModule.likey c m1 l1 s1) st in
  NoModule.likey c m1 l1 s1 st = (inl tt, st1)
  ∧ _registry st1 !! c = Some (default first (_registry st !! c))
  ∧ NoModule.likey c m2 l2 s2 st1 = (inl tt, st1).
Proof.
  intros first st1. subst st1. unfold exec, NoModule.likey.
  erewrite !bind_ok by apply get_state_run.
  destruct (_registry st !! c) as [entry|] eqn:E; simpl.
  - rewrite E. done.
  - unfold modify_state. simpl. rewrite lookup_insert_eq. done.
Qed.





(** ** The code list *)

Lemma init_carries cls c m l d s :
  carries (NoBaseException.__init__ cls c m None l d s) c m.
Proof.
  exists (str_or d ("Error " +:+ str_of_int c)), [].
  rewrite init_nos_fresh. by destruct m as [[|a r]|].
Qed.

Lemma addCode_carries c' d o c m :
  carries o c m → carries (NoBaseException.addCode c' d o) c m.
Proof.
  intros (dflt & rest & H). unfold NoBaseException.addCode.
  destruct (dict_mem (NoBaseException.nos o) c') eqn:E; [by exists dflt, rest|].
  exists dflt, (rest ++ [(c', [str_or d ("Error " +:+ str_of_int c')])]).
  simpl. rewrite dict_set_absent by done. by rewrite H.
Qed.

Lemma made_carries st c m : carries (made st c m []) c m.
Proof.
  unfold made.
  destruct (NoModule.registry_get st c _) as [[[excName defaultMsg] linkedCodes] softFlag].
  apply (foldl_preserves (λ o, carries o c m)).
  { intros o x Ho. by apply addCode_carries. }
  apply init_carries.
Qed.

Lemma comprehension_makeOne complaint codes :
  ∀ st, comprehension (λ c, NoModule._makeOne c complaint []) codes st
        = (inl (seq (length (heap st)) (length codes)),
           set_heap (heap st ++ ((λ c, made st c complaint []) <$> codes)) st).
Proof.
  induction codes as [|c codes IH]; intros st; simpl.
  - by rewrite app_nil_r, set_heap_id.
  - run_step. erewrite bind_ok by apply IH. simpl.
    rewrite length_app. simpl. rewrite Nat.add_1_r.
    rewrite <- app_assoc. done.
Qed.

Lemma comprehension_construct self o complaint codes :
  ∀ st, heap st !! self = Some o →
    comprehension (λ c, construct_like self c complaint) codes st
    = (inl (seq (length (heap st)) (length codes)),
       set_heap (heap st ++ ((λ c, NoBaseException.__init__ (NoBaseException.cls o)
                                      c complaint None None None None) <$> codes)) st).
Proof.
  induction codes as [|c codes IH]; intros st Ho; simpl.
  - by rewrite app_nil_r, set_heap_id.
  - run_step. erewrite bind_ok by (apply IH; solve_lookup). simpl.
    rewrite length_app. simpl. rewrite Nat.add_1_r.
    rewrite <- app_assoc. done.
Qed.

Lemma fresh_objects_carry {A} (h : list NoBaseException.t) (f : A → NoBaseException.t)
    (P : NoBaseException.t → A → Prop) (xs : list A) :
  (∀ x, P (f x) x) →
  Forall2 (λ r x, ∃ o, (h ++ (f <$> xs)) !! r = Some o ∧ P o x)
          (seq (length h) (length xs)) xs.
Proof.
  intros HP. revert h. induction xs as [|x xs IH]; intros h; simpl; [constructor|].
  constructor.
  - exists (f x). split; [by apply list_lookup_middle|apply HP].
  - specialize (IH (h ++ [f x])). rewrite length_app in IH. simpl in IH.
    rewrite Nat.add_1_r, <- app_assoc in IH. done.
Qed.

(** [e([1, 2, 3])] in hide-traceback mode exits with status 1, and
    [no([])] raises the [ValueError] of the aggregate's constructor. *)
Lemma C7_counterexample :
  ¬ code_list_as_specified (CtxException 0) [1; 2; 3]%Z None false
      (exec NoModule.traceback with_receiver_7)
  ∧ ¬ code_list_as_specified CtxModule [] None false initial.
Proof.
  split; intros [(excs & Hres & _) _]; vm_compute in Hres; discriminate.
Qed.

(** C7 (amended).  A call whose single argument is a non-empty list of
    codes, on the module, or on a live exception while tracebacks are
    shown, raises an aggregate of as many new exceptions as codes, in
    order, the i-th with the i-th code first and the complaint after its
    default message, and leaves both pending slots as they were,
    whatever [soften] and the registry say.  On an exception receiver in
    hide-traceback mode the text of the first new exception is printed
    and the interpreter exits with status 1, pending slots unchanged. *)
Theorem C7_code_list ctx codes complaint soften st :
  ctx_live st ctx → codes ≠ [] →
  (ctx = CtxModule ∨ hideTraceback st = false →
   code_list_as_specified ctx codes complaint soften st)
  ∧ (ctx ≠ CtxModule → hideTraceback st = true →
     let res := (_handleCall ctx [AList codes] complaint soften st).1 in
     let st' := (_handleCall ctx [AList codes] complaint soften st).2 in
     res = inr (SystemExit 1)
     ∧ (∃ o c, head codes = Some c ∧ heap st' !! length (heap st) = Some o
              ∧ carries o c complaint
              ∧ stdout st' = stdout st ++ [NoBaseException.str o])
     ∧ thread_pending st' = thread_pending st
     ∧ pending_value st' = pending_value st).
Proof.
  intros Hctx Hne. unfold code_list_as_specified. rewrite handleCall_list.
  destruct codes as [|c codes]; [done|]. clear Hne.
  unfold _handleExceptionGroup. destruct ctx as [|self].
  - split; [|done]. intros _.
    erewrite bind_ok by apply comprehension_makeOne. simpl.
    split; [|done]. eexists. split; [done|].
    apply (fresh_objects_carry (heap st) (λ c, made st c complaint [])
             (λ o c, carries o c complaint) (c :: codes)).
    intros x. apply made_carries.
  - destruct Hctx as [o Ho].
    erewrite bind_ok by (by eapply comprehension_construct).
    run_step. simpl. split.
    + intros [|Hh]; [done|]. rewrite Hh. run_step. simpl.
      split; [|done]. eexists. split; [done|].
      apply (fresh_objects_carry (heap st)
               (λ c, NoBaseException.__init__ (NoBaseException.cls o) c complaint
                       None None None None)
               (λ o c, carries o c complaint) (c :: codes)).
      intros x. apply init_carries.
    + intros _ Hh. rewrite Hh.
      unfold raze, deref. unfold mbind, M_bind. simpl.
      rewrite list_lookup_middle by done. simpl.
      split; [done|]. split; [|done].
      eexists _, c. split; [done|]. split; [by apply list_lookup_middle|].
      split; [apply init_carries|done].
Qed.

Lemma C7_code_list_witness :
  code_list_as_specified CtxModule [1; 2; 3]%Z None false initial.
Proof.
  apply (C7_code_list CtxModule [1; 2; 3]%Z None false initial).
  - exact I.
  - discriminate.
  - left. reflexivity.
Defined.

(** ** Text of an exception *)

Lemma composeText_404_500 :
  NoBaseException.composeText_of
    [(404%Z, ["Not Found"]); (500%Z, ["Server Error"; "extra"])]
  = "[404,500]" +:+ nl +:+ "Not Found" +:+ nl +:+ "Server Error" +:+ nl +:+ "extra".
Proof. done. Qed.

(** C8.  The builder holding codes 404 and 500 with message lists
    ["Not Found"] and ["Server Error", "extra"] builds an exception
    whose text has the header [404,500] followed by four message
    lines: [build] hands [__init__] the primary code's first message as
    [complaint] together with the whole code map, so it is appended a
    second time. *)
Theorem C8_builder_repeats_primary_message :
  NoBuilder._codes builder_404_500
  = [(404%Z, ["Not Found"]); (500%Z, ["Server Error"; "extra"])]
  ∧ ∃ exc b',
      NoBuilder.build builder_404_500 = inr (exc, b')
      ∧ NoBaseException._composeText exc
        = "[404,500]" +:+ nl +:+ "Not Found" +:+ nl +:+ "Not Found"
            +:+ nl +:+ "Server Error" +:+ nl +:+ "extra"
      ∧ NoBaseException.str exc = NoBaseException._composeText exc
      ∧ NoBaseException.complaints exc
        = ["Not Found"; "Not Found"; "Server Error"; "extra"].
Proof. split; [done|]. eexists _, _. split; [reflexivity|]. done. Qed.

Lemma mutate_args0 o m : NoBaseException.args0 (mutate o m) = NoBaseException.args0 o.
Proof.
  destruct m as [c d|c msg|c b|e]; simpl; try done.
  - unfold NoBaseException.addCode. by destruct (dict_mem _ _).
  - unfold NoBaseException.addMessage. by destruct msg as [[|a s]|].
Qed.

(** C9.  [str(exc)] is the text composed from the code map at the end of
    [__init__], and stays so under any sequence of [addCode],
    [addMessage], soft-flag writes and linked-cause recordings; it is a
    function of the code map alone, so no linked cause shows in it. *)
Theorem C9_str_fixed_at_construction cls code complaint codes linked
    defaultComplaint softCodes (ms : list Mutation) :
  let exc := NoBaseException.__init__ cls code complaint codes linked
               defaultComplaint softCodes in
  NoBaseException.str exc = NoBaseException._composeText exc
  ∧ NoBaseException.str (foldl mutate exc ms)
    = NoBaseException.composeText_of (NoBaseException.nos exc).
Proof.
  intros exc. split; [done|].
  change (NoBaseException.composeText_of (NoBaseException.nos exc))
    with (NoBaseException.args0 exc).
  unfold NoBaseException.str.
  apply (foldl_preserves
           (λ o, NoBaseException.args0 o = NoBaseException.args0 exc));
    [|done].
  intros o m Ho. by rewrite mutate_args0.
Qed.

(** ** Exception arguments *)

(** C10.  A call whose single positional argument is an exception, the
    package's own or foreign, returns normally and changes nothing: heap
    (hence the receiver), registry and both pending slots are the
    same. *)
Theorem C10_exception_argument_is_noop ctx e complaint soften st :
  _handleCall ctx [AExc e] complaint soften st = (inl tt, st).
Proof. by destruct complaint, soften. Qed.

(** * Further properties of the code *)

(** ** What no call changes *)

Lemma frame_refl st : frame st st.
Proof.
  repeat split; try done. { exists []. by rewrite app_nil_r. }
  intros r o H. by exists o.
Qed.

Lemma frame_trans st1 st2 st3 : frame st1 st2 → frame st2 st3 → frame st1 st3.
Proof.
  intros (Hr & Hh & Hp & [p1 Hs] & Ho) (Hr' & Hh' & Hp' & [p2 Hs'] & Ho').
  repeat split; try congruence.
  - exists (p1 ++ p2). by rewrite Hs', Hs, app_assoc.
  - intros r o H. destruct (Ho r o H) as (o1 & H1 & Hs1 & Hc1).
    destruct (Ho' r o1 H1) as (o2 & H2 & Hs2 & Hc2).
    exists o2. split; [done|]. split; congruence.
Qed.

Section Safe.
Context (P : Raised → Prop).

Lemma safe_ret {A} (x : A) : safe P (mret x).
Proof. intros st. split; [apply frame_refl|done]. Qed.

Lemma safe_raise {A} e : P e → safe P (raise (A := A) e).
Proof. intros He st. split; [apply frame_refl|]. simpl. by intros ? [= <-]. Qed.

Lemma safe_get_state : safe P get_state.
Proof. intros st. split; [apply frame_refl|done]. Qed.

Lemma safe_bind {A B} (m : M A) (f : A → M B) :
  safe P m → (∀ x, safe P (f x)) → safe P (m ≫= f).
Proof.
  intros Hm Hf st. unfold mbind, M_bind.
  destruct (Hm st) as [Hfr Hr]. destruct (m st) as [[x|e] st1]; simpl in *.
  - destruct (Hf x st1) as [Hfr' Hr']. split; [by eapply frame_trans|done].
  - split; [done|]. intros e' [= <-]. by apply Hr.
Qed.

Lemma safe_bind_state {A} (f : State → M A) :
  (∀ st, safe P (f st)) → safe P (get_state ≫= f).
Proof. intros Hf. apply safe_bind; [apply safe_get_state|done]. Qed.

Lemma safe_for_each {A} (l : list A) (body : A → M unit) :
  (∀ x, safe P (body x)) → safe P (for_each l body).
Proof.
  intros Hb. induction l as [|x l IH]; simpl; [apply safe_ret|].
  apply safe_bind; [apply Hb|done].
Qed.

Lemma safe_comprehension {A B} (f : A → M B) (l : list A) :
  (∀ x, safe P (f x)) → safe P (comprehension f l).
Proof.
  intros Hf. induction l as [|x l IH]; simpl; [apply safe_ret|].
  apply safe_bind; [apply Hf|]. intros y.
  apply safe_bind; [done|]. intros ys. apply safe_ret.
Qed.

Lemma safe_new o : safe P (new o).
Proof.
  intros st. split; [|done]. unfold new. simpl.
  repeat split; try done. { exists []. by rewrite app_nil_r. }
  intros r o' H. exists o'. split; [by apply lookup_app_l_Some|done].
Qed.

Lemma safe_print s : safe P (print s).
Proof.
  intros st. split; [|done]. unfold print, modify_state. simpl.
  repeat split; try done. { by exists [s]. }
  intros r o' H. by exists o'.
Qed.

Lemma safe_setPending exc : safe P (_setPending exc).
Proof.
  intros st. split; [|done]. unfold _setPending, modify_state. simpl.
  repeat split; try done. { exists []. by rewrite app_nil_r. }
  intros r o' H. by exists o'.
Qed.

Lemma safe_getPending : safe P _getPending.
Proof. intros st. split; [apply frame_refl|done]. Qed.

Context (HStuck : P Stuck).

Lemma safe_deref r : safe P (deref r).
Proof.
  intros st. unfold deref. destruct (heap st !! r); simpl.
  - split; [apply frame_refl|done].
  - split; [apply frame_refl|]. by intros ? [= <-].
Qed.

Lemma safe_update r f :
  (∀ o, NoBaseException.str (f o) = NoBaseException.str o
        ∧ NoBaseException.cls (f o) = NoBaseException.cls o) →
  safe P (update r f).
Proof.
  intros Hf st. unfold update, deref, mbind, M_bind, modify_state.
  destruct (heap st !! r) as [o|] eqn:Ho; simpl.
  2:{ split; [apply frame_refl|]. by intros ? [= <-]. }
  split; [|done].
  repeat split; try done. { exists []. by rewrite app_nil_r. }
  intros q oq Hq. destruct (decide (q = r)) as [->|Hne].
  - exists (f o). split.
    + apply list_lookup_insert_eq. by eapply lookup_lt_Some.
    + rewrite Ho in Hq. injection Hq as <-. apply Hf.
  - exists oq. split; [|done]. simpl. by rewrite list_lookup_insert_ne.
Qed.

Lemma stable_addCode c d o :
  NoBaseException.str (NoBaseException.addCode c d o) = NoBaseException.str o
  ∧ NoBaseException.cls (NoBaseException.addCode c d o) = NoBaseException.cls o.
Proof. unfold NoBaseException.addCode. by destruct (dict_mem _ _). Qed.

Lemma stable_addMessage c m o :
  NoBaseException.str (NoBaseException.addMessage c m o) = NoBaseException.str o
  ∧ NoBaseException.cls (NoBaseException.addMessage c m o) = NoBaseException.cls o.
Proof. unfold NoBaseException.addMessage. by destruct m as [[|a s]|]. Qed.

Lemma stable_setSoft c b o :
  NoBaseException.str (NoBaseException.setSoft c b o) = NoBaseException.str o
  ∧ NoBaseException.cls (NoBaseException.setSoft c b o) = NoBaseException.cls o.
Proof. done. Qed.

Lemma stable_recordLinked e o :
  NoBaseException.str (NoBaseException._recordLinkedException e o) = NoBaseException.str o
  ∧ NoBaseException.cls (NoBaseException._recordLinkedException e o) = NoBaseException.cls o.
Proof. done. Qed.

Lemma safe_raze r : P (SystemExit 1) → safe P (raze r).
Proof.
  intros HP. unfold raze. apply safe_bind; [apply safe_deref|]. intros o.
  apply safe_bind; [apply safe_print|]. intros _. by apply safe_raise.
Qed.

Lemma safe_maybe_raze (b : bool) r :
  P (SystemExit 1) → safe P (if b then raze r else mret tt).
Proof. intros HP. destruct b; [by apply safe_raze|apply safe_ret]. Qed.

Lemma safe_makeOne c m l : safe P (NoModule._makeOne c m l).
Proof.
  unfold NoModule._makeOne. apply safe_bind_state. intros st.
  destruct (NoModule.registry_get st c _) as [[[excName defaultMsg] linkedCodes] softFlag].
  apply safe_bind; [apply safe_new|]. intros exc.
  apply safe_bind.
  { apply safe_for_each. intros x. apply safe_update, stable_recordLinked. }
  intros _. apply safe_bind; [|intros _; apply safe_ret].
  apply safe_for_each. intros x. apply safe_bind_state. intros st'.
  apply safe_bind; [apply safe_update, stable_addCode|].
  intros _. apply safe_update, stable_setSoft.
Qed.

Lemma safe_construct_like self c m : safe P (construct_like self c m).
Proof.
  unfold construct_like. apply safe_bind; [apply safe_deref|].
  intros o. apply safe_new.
Qed.

Lemma safe_getRegistryEntry ctx c : safe P (_getRegistryEntry ctx c).
Proof.
  destruct ctx as [|self]; simpl.
  - apply safe_bind_state. intros st. apply safe_ret.
  - apply safe_bind; [apply safe_deref|]. intros o. apply safe_ret.
Qed.

Lemma safe_propagate exc c : safe P (NoModule.propagate exc c).
Proof.
  unfold NoModule.propagate. apply safe_bind_state. intros st.
  apply safe_bind; [apply safe_update, stable_addCode|].
  intros _. apply safe_update, stable_setSoft.
Qed.

Context (HExit : P (SystemExit 1)) (HNo : ∀ r, P (ExcNo r)).

Lemma safe_handleSoftOrRaise exc sf soften : safe P (_handleSoftOrRaise exc sf soften).
Proof.
  unfold _handleSoftOrRaise. destruct (sf || soften); [apply safe_setPending|].
  apply safe_bind_state. intros st.
  apply safe_bind; [by apply safe_maybe_raze|]. intros _. by apply safe_raise.
Qed.

Lemma safe_handleEmptyCall ctx : safe P (_handleEmptyCall ctx).
Proof.
  unfold _handleEmptyCall. apply safe_bind; [apply safe_getPending|].
  intros pending. apply safe_bind_state. intros st.
  destruct pending as [p|].
  - apply safe_bind; [by apply safe_maybe_raze|]. intros _. by apply safe_raise.
  - destruct ctx as [|self].
    + apply safe_bind; [apply safe_makeOne|]. intros exc.
      apply safe_bind; [by apply safe_maybe_raze|]. intros _. by apply safe_raise.
    + apply safe_bind; [by apply safe_maybe_raze|]. intros _. by apply safe_raise.
Qed.

Lemma safe_maybe_addMessage (b : bool) r c m :
  safe P (if b then update r (NoBaseException.addMessage c m) else mret tt).
Proof. destruct b; [apply safe_update, stable_addMessage|apply safe_ret]. Qed.

Lemma safe_handleSingleCode ctx c complaint soften exception :
  safe P (_handleSingleCode ctx c complaint soften exception).
Proof.
  unfold _handleSingleCode. apply safe_bind; [apply safe_getRegistryEntry|].
  intros [sf dm]. apply safe_bind; [apply safe_getPending|].
  intros [p|].
  - apply safe_bind; [apply safe_update, stable_addCode|]. intros _.
    apply safe_bind; [apply safe_maybe_addMessage|]. intros _.
    apply safe_bind; [apply safe_update, stable_setSoft|]. intros _.
    apply safe_setPending.
  - apply safe_bind.
    { destruct ctx; [|apply safe_ret].
      destruct (exception ≫= exc_self) as [e|]; [|apply safe_ret].
      apply safe_bind; [apply safe_propagate|]. intros _.
      apply safe_bind; [apply safe_maybe_addMessage|]. intros _.
      apply safe_bind; [apply safe_update, stable_setSoft|]. intros _.
      apply safe_handleSoftOrRaise. }
    intros _. apply safe_bind.
    { destruct ctx as [|self]; [apply safe_ret|].
      apply safe_bind; [apply safe_update, stable_addCode|]. intros _.
      apply safe_bind; [apply safe_maybe_addMessage|]. intros _.
      apply safe_bind; [apply safe_update, stable_setSoft|]. intros _.
      apply safe_handleSoftOrRaise. }
    intros _. apply safe_bind.
    { destruct ctx; [apply safe_makeOne|apply safe_construct_like]. }
    intros exc. apply safe_handleSoftOrRaise.
Qed.

Lemma safe_handleCodeMessage ctx c msg soften :
  safe P (_handleCodeMessage ctx c msg soften).
Proof.
  unfold _handleCodeMessage. apply safe_bind; [apply safe_getRegistryEntry|].
  intros [sf dm]. apply safe_bind; [apply safe_getPending|].
  intros [p|].
  - apply safe_bind; [apply safe_update, stable_addCode|]. intros _.
    apply safe_bind; [apply safe_update, stable_addMessage|]. intros _.
    apply safe_bind; [apply safe_update, stable_setSoft|]. intros _.
    apply safe_setPending.
  - apply safe_bind.
    { destruct ctx as [|self]; [apply safe_ret|].
      apply safe_bind; [apply safe_update, stable_addCode|]. intros _.
      apply safe_bind; [apply safe_update, stable_addMessage|]. intros _.
      apply safe_bind; [apply safe_update, stable_setSoft|]. intros _.
      apply safe_handleSoftOrRaise. }
    intros _. apply safe_bind.
    { destruct ctx; [apply safe_makeOne|apply safe_construct_like]. }
    intros exc. apply safe_handleSoftOrRaise.
Qed.

Lemma safe_handleCodeExceptionLink ctx c e complaint soften :
  safe P (_handleCodeExceptionLink ctx c e complaint soften).
Proof.
  unfold _handleCodeExceptionLink. apply safe_bind; [apply safe_getRegistryEntry|].
  intros [sf dm]. destruct ctx as [|self].
  - apply safe_bind; [apply safe_makeOne|]. intros exc. apply safe_handleSoftOrRaise.
  - apply safe_bind; [apply safe_update, stable_addCode|]. intros _.
    apply safe_bind; [apply safe_update, stable_recordLinked|]. intros _.
    apply safe_handleSoftOrRaise.
Qed.

Context (HGroup : ∀ m l, P (ExcGroup m l)) (HValue : ∀ m, P (ExcValueError m))
        (HIndex : P ExcIndexError).

Lemma safe_raise_ExceptionGroup {A} m l : safe P (raise_ExceptionGroup (A := A) m l).
Proof. destruct l; simpl; by apply safe_raise. Qed.

Lemma safe_handleExceptionGroup ctx codes complaint :
  safe P (_handleExceptionGroup ctx codes complaint).
Proof.
  unfold _handleExceptionGroup. destruct ctx as [|self].
  - apply safe_bind.
    { apply safe_comprehension. intros c. apply safe_makeOne. }
    intros excs. apply safe_raise_ExceptionGroup.
  - apply safe_bind.
    { apply safe_comprehension. intros c. apply safe_construct_like. }
    intros excs. apply safe_bind_state. intros st.
    apply safe_bind; [|intros _; apply safe_raise_ExceptionGroup].
    destruct (hideTraceback st); [|apply safe_ret].
    destruct excs; [by apply safe_raise|by apply safe_raze].
Qed.

Lemma safe_handleCall_shape ctx args complaint soften :
  call_shape args → safe P (_handleCall ctx args complaint soften).
Proof.
  intros Hs. destruct Hs.
  - assert (_handleCall ctx [] complaint soften = _handleEmptyCall ctx) as ->
      by by destruct complaint, soften.
    apply safe_handleEmptyCall.
  - assert (_handleCall ctx [AList codes] complaint soften
            = _handleExceptionGroup ctx codes complaint) as ->
      by by destruct complaint, soften.
    apply safe_handleExceptionGroup.
  - assert (_handleCall ctx [AExc e] complaint soften = mret tt) as ->
      by by destruct complaint, soften.
    apply safe_ret.
  - assert (_handleCall ctx [AInt c] complaint soften
            = _handleSingleCode ctx c complaint soften None) as ->
      by by destruct complaint, soften.
    apply safe_handleSingleCode.
  - assert (_handleCall ctx [AInt c; AExc e] complaint soften
            = _handleCodeExceptionLink ctx c e complaint soften) as ->
      by by destruct complaint, soften.
    apply safe_handleCodeExceptionLink.
  - assert (_handleCall ctx [AInt c; AStr msg] complaint soften
            = _handleCodeMessage ctx c msg soften) as ->
      by by destruct complaint, soften.
    apply safe_handleCodeMessage.
Qed.
End Safe.

(** ** Argument shapes and the router *)

Lemma handleCall_no_shape ctx args complaint soften st :
  ¬ call_shape args →
  _handleCall ctx args complaint soften st = (inr ExcTypeError, st).
Proof.
  intros Hn.
  destruct args as [|a [|b [|c rest]]].
  - destruct Hn; constructor.
  - destruct a; try (destruct Hn; constructor); by destruct complaint, soften.
  - destruct a; try (by destruct complaint, soften);
      destruct b; try (destruct Hn; constructor); by destruct complaint, soften.
  - destruct a, b; by destruct complaint, soften.
Qed.

(** X1.  A call raises [TypeError] exactly when its positional
    arguments fit none of the six shapes of [CALL_HANDLERS]: nothing, a
    list, an exception, a code, a code with an exception, a code with a
    string.  The keywords [complaint] and [soften] and the receiver
    never matter for that, and the rejected call changes nothing. *)
Theorem usage_error_iff_no_shape ctx args complaint soften st :
  ((_handleCall ctx args complaint soften st).1 = inr ExcTypeError
   ↔ ¬ call_shape args)
  ∧ (¬ call_shape args → (_handleCall ctx args complaint soften st).2 = st).
Proof.
  split; [split|].
  - intros Hres Hs.
    destruct (safe_handleCall_shape not_usage_error) with
      (ctx := ctx) (args := args) (complaint := complaint) (soften := soften) (st := st)
      as [_ Hr]; try done.
    by apply (Hr ExcTypeError).
  - intros Hn. by rewrite handleCall_no_shape.
  - intros Hn. by rewrite handleCall_no_shape.
Qed.

Lemma call_shape_dec args : call_shape args ∨ ¬ call_shape args.
Proof.
  destruct args as [|a [|b [|c rest]]].
  - left; constructor.
  - destruct a; try (left; constructor); right; inversion 1.
  - destruct a; try (right; by inversion 1);
      destruct b; try (right; by inversion 1); left; constructor.
  - right; inversion 1.
Qed.

(** X2.  Whatever the receiver and the arguments, a call leaves the
    registry, the [hideTraceback] flag and the shared slot
    [no.pending.value] as they are, only appends to standard output,
    and keeps every exception object alive with its text and its
    class: calls write to the thread-local slot and to the code maps
    only. *)
Theorem handleCall_frame ctx args complaint soften st :
  frame st (_handleCall ctx args complaint soften st).2.
Proof.
  destruct (call_shape_dec args) as [Hs|Hn].
  - by apply (safe_handleCall_shape (λ _, True)).
  - rewrite handleCall_no_shape by done. apply frame_refl.
Qed.

Lemma raze_raises r st : ∃ e, (raze r st).1 = inr e.
Proof.
  unfold raze, deref. unfold mbind, M_bind.
  destruct (heap st !! r); simpl; eauto.
Qed.

Lemma maybe_raze_then_raise (b : bool) r e st :
  ∃ e', (((if b then raze r else mret tt) ≫= (λ _, raise (A := unit) e)) st).1
        = inr e'.
Proof.
  destruct b.
  - unfold raze, deref. unfold mbind, M_bind. destruct (heap st !! r); simpl; eauto.
  - simpl. eauto.
Qed.

(** X3.  A call without positional arguments never returns: it raises
    or exits, and [complaint] and [soften] are ignored, since the router
    sends every empty argument tuple to [_handleEmptyCall], directly or
    through the first entry of the table. *)
Theorem empty_call_never_returns ctx complaint soften st :
  _handleCall ctx [] complaint soften st = _handleCall ctx [] None false st
  ∧ ∃ e, (_handleCall ctx [] complaint soften st).1 = inr e.
Proof.
  rewrite !handleCall_empty. split; [done|].
  unfold _handleEmptyCall. do 2 run_step.
  destruct (NoModule.stash_of st) as [p|].
  - destruct (maybe_raze_then_raise (hideTraceback st) p (ExcNo p) st) as [e He]. eauto.
  - destruct ctx as [|self].
    + run_step.
      destruct (maybe_raze_then_raise (hideTraceback st) (length (heap st))
                  (ExcNo (length (heap st)))
                  (set_heap (heap st ++ [made st 0 None []]) st)) as [e He]. eauto.
    + destruct (maybe_raze_then_raise (hideTraceback st) self (ExcNo self) st) as [e He].
      eauto.
Qed.

Lemma bind_ext {A B} (m : M A) (f g : A → M B) st :
  (∀ x st', f x st' = g x st') → (m ≫= f) st = (m ≫= g) st.
Proof. intros H. unfold mbind, M_bind. destruct (m st) as [[x|e] st']; auto. Qed.

Lemma update_update_id {B} r f g (k : unit → M B) st :
  (∀ o, g (f o) = f o) →
  (update r f ≫= λ _, update r g ≫= k) st = (update r f ≫= k) st.
Proof.
  intros Hg. unfold update, deref, modify_state. unfold mbind, M_bind.
  destruct (heap st !! r) as [o|] eqn:Ho; [|done]. simpl.
  rewrite list_lookup_insert_eq by (by eapply lookup_lt_Some).
  rewrite Hg. f_equal. unfold set_heap. simpl. by rewrite list_insert_insert_eq.
Qed.

Lemma update_update_id_assoc {B C} r f g (K1 : unit → M B) (K2 : B → M C) st :
  (∀ o, g (f o) = f o) →
  (update r f ≫= λ _, (update r g ≫= K1) ≫= K2) st
  = (update r f ≫= λ _, K1 tt ≫= K2) st.
Proof.
  intros Hg.
  rewrite (bind_ext _ _ (λ _, update r g ≫= λ x, K1 x ≫= K2))
    by (intros; apply bind_assoc).
  rewrite update_update_id by done. apply bind_ext. by intros [] ?.
Qed.

Lemma ret_bind {A B} (x : A) (k : A → M B) st :
  (mret (M := M) x ≫= k) st = k x st.
Proof. done. Qed.

(** X4.  The message may be given as second positional argument or as
    the keyword [complaint]: [no(c, msg)] and [no(c, complaint=msg)]
    are the same computation for every receiver and state, and a
    [complaint] keyword given next to a positional message is
    dropped. *)
Theorem message_positional_or_keyword ctx c msg complaint soften st :
  _handleCall ctx [AInt c; AStr msg] complaint soften st
  = _handleCall ctx [AInt c] (Some msg) soften st.
Proof.
  rewrite handleCall_message, handleCall_single.
  unfold _handleCodeMessage, _handleSingleCode.
  apply bind_ext. intros [sf dm] st1.
  apply bind_ext. intros [p|] st2.
  - destruct msg as [|a s].
    + rewrite update_update_id by done. done.
    + done.
  - destruct ctx as [|self]; [done|].
    cbv beta iota. rewrite ret_bind, !bind_assoc.
    destruct msg as [|a s]; [|done].
    rewrite update_update_id_assoc by done.
    apply bind_ext. by intros [] ?.
Qed.

(** ** More on dictionaries *)

Section DictLaws.
Context {K V : Type} `{EqDecision K}.
Implicit Types (d : list (K * V)) (k : K) (v : V).

Lemma dict_get_set_ne d k k' v :
  k ≠ k' → dict_get (dict_set d k v) k' = dict_get d k'.
Proof.
  intros Hne. induction d as [|[k0 v0] d IH]; simpl.
  - by rewrite decide_False.
  - destruct (decide (k = k0)) as [->|]; simpl.
    + by rewrite !decide_False by done.
    + destruct (decide (k' = k0)); [done|apply IH].
Qed.

Lemma dict_get_set d k k' v :
  dict_get (dict_set d k v) k' = if decide (k' = k) then Some v else dict_get d k'.
Proof.
  destruct (decide (k' = k)) as [->|Hne]; [apply dict_get_set_eq|].
  by apply dict_get_set_ne.
Qed.

Lemma dict_set_same d k v : dict_get d k = Some v → dict_set d k v = d.
Proof.
  induction d as [|[k0 v0] d IH]; simpl; [done|].
  destruct (decide (k = k0)) as [->|]; [by intros [= ->]|].
  intros H. by rewrite IH.
Qed.

Lemma dict_mem_keys d k : dict_mem d k = true ↔ k ∈ dict_keys d.
Proof.
  unfold dict_mem, dict_keys. induction d as [|[k0 v0] d IH]; simpl.
  - split; [done|]. by intros ?%elem_of_nil.
  - rewrite elem_of_cons. destruct (decide (k = k0)) as [->|].
    + split; auto.
    + rewrite IH. split; [auto|]. by intros [?|?].
Qed.

Lemma dict_mem_false_keys d k : dict_mem d k = false ↔ k ∉ dict_keys d.
Proof.
  rewrite <- dict_mem_keys. destruct (dict_mem d k); [|done].
  split; [done|]. intros H. by destruct H.
Qed.

Lemma dict_keys_set d k v :
  dict_keys (dict_set d k v)
  = if dict_mem d k then dict_keys d else dict_keys d ++ [k].
Proof.
  unfold dict_mem, dict_keys. induction d as [|[k0 v0] d IH]; simpl; [done|].
  destruct (decide (k = k0)) as [->|]; simpl; [done|].
  change (list_fmap (K * V)%type K fst (dict_set d k v)) with ((dict_set d k v).*1).
  rewrite IH. by destruct (dict_get d k).
Qed.
End DictLaws.

Lemma set_add_elem {A} `{EqDecision A} (s : list A) x : x ∈ set_add s x.
Proof.
  unfold set_add. destruct (decide (x ∈ s)); [done|].
  apply elem_of_app. right. by apply list_elem_of_singleton.
Qed.

Lemma set_add_subseteq {A} `{EqDecision A} (s : list A) x : s ⊆ set_add s x.
Proof.
  unfold set_add. destruct (decide (x ∈ s)); [done|].
  intros y Hy. apply elem_of_app. by left.
Qed.

Lemma set_add_idem {A} `{EqDecision A} (s : list A) x :
  set_add (set_add s x) x = set_add s x.
Proof.
  unfold set_add at 1. by rewrite decide_True by apply set_add_elem.
Qed.

(** ** Linked causes *)

Lemma recordLinked_linked e o :
  linked_synced o →
  NoBaseException.linked (NoBaseException._recordLinkedException e o)
  = dict_set (NoBaseException.linked o) (cause_key e)
      (set_add (default [] (dict_get (NoBaseException.linked o) (cause_key e)))
         (exc_traceback e))
  ∧ linked_synced (NoBaseException._recordLinkedException e o).
Proof.
  intros Hs. unfold NoBaseException._recordLinkedException, linked_synced. simpl.
  split; [|by right].
  by destruct Hs as [->| ->].
Qed.

Lemma mutate_linked_synced o m : linked_synced o → linked_synced (mutate o m).
Proof.
  intros Hs. destruct m as [c d|c msg|c b|e]; simpl.
  - unfold NoBaseException.addCode. by destruct (dict_mem _ _).
  - unfold NoBaseException.addMessage. by destruct msg as [[|a s]|].
  - done.
  - by apply recordLinked_linked.
Qed.

(** X15.  Whatever was done to an exception since its construction,
    recording a cause keeps every cause and location recorded before,
    adds the new location under the cause's key, and recording the
    same cause again changes nothing. *)
Theorem linked_causes_accumulate cls code complaint codes linked
    defaultComplaint softCodes (ms : list Mutation) (e : BaseException) :
  let o := foldl mutate
             (NoBaseException.__init__ cls code complaint codes linked
                defaultComplaint softCodes) ms in
  let o' := NoBaseException._recordLinkedException e o in
  (∃ locs, dict_get (NoBaseException.linked o') (cause_key e) = Some locs
         ∧ exc_traceback e ∈ locs)
  ∧ (∀ k locs, dict_get (NoBaseException.linked o) k = Some locs →
       ∃ locs', dict_get (NoBaseException.linked o') k = Some locs'
              ∧ locs ⊆ locs')
  ∧ NoBaseException._recordLinkedException e o' = o'.
Proof.
  intros o o'.
  assert (Hs : linked_synced o).
  { apply (foldl_preserves linked_synced); [intros; by apply mutate_linked_synced|].
    by left. }
  destruct (recordLinked_linked e o Hs) as [Hl Hs'].
  split; [|split].
  - subst o'. rewrite Hl, dict_get_set_eq. eexists. split; [done|apply set_add_elem].
  - intros k locs Hk. subst o'. rewrite Hl, dict_get_set.
    destruct (decide (k = cause_key e)) as [->|]; [|by exists locs].
    rewrite Hk. simpl. eexists. split; [done|apply set_add_subseteq].
  - unfold NoBaseException._recordLinkedException at 1.
    assert (Hc : NoBaseException._linked_defaultdict o'
                 = Some (NoBaseException.linked o')) by done.
    rewrite Hc. fold (cause_key e).
    assert (Hid : dict_set (NoBaseException.linked o') (cause_key e)
              (set_add (default [] (dict_get (NoBaseException.linked o') (cause_key e)))
                 (exc_traceback e)) = NoBaseException.linked o').
    { apply dict_set_same. subst o'. rewrite Hl at 1 2. rewrite !dict_get_set_eq.
      simpl. by rewrite set_add_idem. }
    rewrite Hid, <- Hc. clear. clearbody o'. by destruct o'.
Qed.

(** ** Messages and the message cache *)

Lemma truthy_complaint_list m :
  truthy m = true → ∃ msg, m = Some msg ∧ complaint_list m = [msg].
Proof. destruct m as [[|a s]|]; try done. intros _. by eexists. Qed.

Lemma falsy_complaint_list m : truthy m = false → complaint_list m = [].
Proof. by destruct m as [[|a s]|]. Qed.

Lemma addMessage_synced c m o :
  nos_synced o →
  nos_synced (NoBaseException.addMessage c m o)
  ∧ ∀ k, default [] (dict_get (NoBaseException.nos (NoBaseException.addMessage c m o)) k)
         = default [] (dict_get (NoBaseException.nos o) k)
           ++ (if decide (c = k) then complaint_list m else []).
Proof.
  intros Hs. destruct (truthy m) eqn:Hm.
  - destruct (truthy_complaint_list m Hm) as (msg & -> & ->).
    unfold NoBaseException.addMessage. rewrite Hm. simpl.
    split; [by right|]. intros k.
    assert (Hdd : match NoBaseException._nos_defaultdict o with
                  | Some d => d | None => NoBaseException.nos o end
                  = NoBaseException.nos o) by (by destruct Hs as [->| ->]).
    rewrite Hdd, dict_get_set.
    destruct (decide (c = k)) as [->|Hne].
    + by rewrite decide_True.
    + rewrite decide_False by done. by rewrite app_nil_r.
  - rewrite addMessage_falsy, falsy_complaint_list by done.
    split; [done|]. intros k. destruct (decide (c = k)); by rewrite app_nil_r.
Qed.

(** X16.  On a newly constructed exception a series of [addMessage]
    calls appends to each code's list exactly the non-empty messages
    given for that code, in call order; a code first seen by
    [addMessage] gets no default message. *)
Theorem addMessage_keeps_order cls code complaint codes linked
    defaultComplaint softCodes (msgs : list (Z * option string)) (k : Z) :
  let o := NoBaseException.__init__ cls code complaint codes linked
             defaultComplaint softCodes in
  default [] (dict_get (NoBaseException.nos (add_messages msgs o)) k)
  = default [] (dict_get (NoBaseException.nos o) k) ++ messages_for k msgs.
Proof.
  intros o. assert (Hs : nos_synced o) by (by left).
  clearbody o. revert o Hs. unfold add_messages.
  induction msgs as [|[c m] msgs IH]; intros o Hs; simpl.
  - by rewrite app_nil_r.
  - destruct (addMessage_synced c m o Hs) as [Hs' Hk].
    rewrite IH by done. rewrite Hk.
    unfold messages_for. simpl. by rewrite <- app_assoc.
Qed.

(** X17.  Once [addMessage] has run on an exception, a code added by
    [addCode] is lost at the next [addMessage]: when that call is for
    another code the added code disappears from the code map, and when
    it is for the added code its default message is replaced by the
    new message alone. *)
Theorem addCode_after_addMessage_is_dropped o c1 m1 c2 d c3 m3 :
  truthy m1 = true →
  truthy m3 = true →
  dict_mem (NoBaseException.nos (NoBaseException.addMessage c1 m1 o)) c2 = false →
  let o1 := NoBaseException.addCode c2 d (NoBaseException.addMessage c1 m1 o) in
  dict_mem (NoBaseException.nos o1) c2 = true
  ∧ dict_get (NoBaseException.nos (NoBaseException.addMessage c3 m3 o1)) c2
    = if decide (c3 = c2) then Some (complaint_list m3) else None.
Proof.
  intros H1 H3 Hc2 o1. split; [apply addCode_mem|].
  destruct (truthy_complaint_list m1 H1) as (msg1 & -> & _).
  destruct (truthy_complaint_list m3 H3) as (msg3 & -> & ->).
  subst o1. unfold NoBaseException.addCode. rewrite Hc2.
  revert Hc2. unfold NoBaseException.addMessage. rewrite H1, H3. simpl.
  set (dd := dict_set _ c1 _). intros Hc2.
  assert (Hnone : dict_get dd c2 = None).
  { unfold dict_mem in Hc2. by destruct (dict_get dd c2). }
  rewrite dict_get_set.
  destruct (decide (c2 = c3)) as [->|Hne].
  - rewrite decide_True by done. by rewrite Hnone.
  - by rewrite decide_False.
Qed.

Lemma addCode_after_addMessage_is_dropped_witness :
  dict_get
    (NoBaseException.nos
       (NoBaseException.addMessage 1 (Some "b")
          (NoBaseException.addCode 2 None
             (NoBaseException.addMessage 1 (Some "a")
                (NoBaseException.__init__ "NoBaseException" 1 None None None None None)))))
    2%Z = None.
Proof.
  apply (addCode_after_addMessage_is_dropped
           (NoBaseException.__init__ "NoBaseException" 1 None None None None None)
           1 (Some "a") 2 None 1 (Some "b")); reflexivity.
Defined.

(** ** Linked codes and [propagate] *)

Lemma init_complaint_list m :
  match m with Some msg => if truthy m then [msg] else [] | None => [] end
  = complaint_list m.
Proof. by destruct m as [[|a s]|]. Qed.

Lemma propagated_nos st c o :
  NoBaseException.nos (propagated st c o)
  = if dict_mem (NoBaseException.nos o) c then NoBaseException.nos o
    else NoBaseException.nos o ++ [(c, default_entry st c)].
Proof.
  unfold propagated. rewrite setSoft_nos. unfold NoBaseException.addCode.
  destruct (dict_mem (NoBaseException.nos o) c) eqn:E; [done|].
  simpl. by rewrite dict_set_absent.
Qed.

Lemma propagated_keys st c o :
  dict_keys (NoBaseException.nos (propagated st c o))
  = set_add (dict_keys (NoBaseException.nos o)) c.
Proof.
  rewrite propagated_nos. unfold set_add.
  destruct (dict_mem (NoBaseException.nos o) c) eqn:E.
  - apply dict_mem_keys in E. by rewrite decide_True.
  - apply dict_mem_false_keys in E. rewrite decide_False by done.
    unfold dict_keys. by rewrite fmap_app.
Qed.

Lemma dict_get_app_absent {K V} `{EqDecision K} (d : list (K * V)) k v k' :
  dict_mem d k = false →
  dict_get (d ++ [(k, v)]) k'
  = match dict_get d k' with
    | Some w => Some w
    | None => if decide (k' = k) then Some v else None
    end.
Proof.
  intros H. rewrite <- dict_set_absent by done. rewrite dict_get_set.
  destruct (decide (k' = k)) as [->|]; [|by destruct (dict_get d k')].
  unfold dict_mem in H. by destruct (dict_get d k).
Qed.

Lemma propagated_get st c o k :
  dict_get (NoBaseException.nos (propagated st c o)) k
  = match dict_get (NoBaseException.nos o) k with
    | Some w => Some w
    | None => if decide (k = c) then Some (default_entry st c) else None
    end.
Proof.
  rewrite propagated_nos.
  destruct (dict_mem (NoBaseException.nos o) c) eqn:E.
  - destruct (dict_get (NoBaseException.nos o) k) eqn:Ek; [done|].
    destruct (decide (k = c)) as [->|]; [|done].
    unfold dict_mem in E. by rewrite Ek in E.
  - by apply dict_get_app_absent.
Qed.

Lemma propagated_soft st c o k :
  dict_get (NoBaseException._softCodes (propagated st c o)) k
  = if decide (k = c) then Some (registered_soft st c)
    else dict_get (NoBaseException._softCodes o) k.
Proof.
  unfold propagated, NoBaseException.setSoft, NoBaseException.addCode.
  destruct (dict_mem (NoBaseException.nos o) c); simpl; apply dict_get_set.
Qed.

Lemma propagated_cls st c o :
  NoBaseException.cls (propagated st c o) = NoBaseException.cls o.
Proof.
  unfold propagated, NoBaseException.setSoft, NoBaseException.addCode.
  by destruct (dict_mem (NoBaseException.nos o) c).
Qed.

Lemma foldl_propagated st links : ∀ o,
  let o' := foldl (λ o extra, propagated st extra o) o links in
  NoBaseException.cls o' = NoBaseException.cls o
  ∧ dict_keys (NoBaseException.nos o')
    = foldl set_add (dict_keys (NoBaseException.nos o)) links
  ∧ (∀ k, dict_get (NoBaseException.nos o') k
          = match dict_get (NoBaseException.nos o) k with
            | Some w => Some w
            | None => if decide (k ∈ links) then Some (default_entry st k) else None
            end)
  ∧ (∀ k, dict_get (NoBaseException._softCodes o') k
          = if decide (k ∈ links) then Some (registered_soft st k)
            else dict_get (NoBaseException._softCodes o) k).
Proof.
  induction links as [|x links IH]; intros o; simpl.
  - split; [done|]. split; [done|]. split; intros k.
    + by destruct (dict_get _ k).
    + done.
  - destruct (IH (propagated st x o)) as (Hc & Hk & Hg & Hs).
    split; [by rewrite Hc, propagated_cls|].
    split; [by rewrite Hk, propagated_keys|]. split; intros k.
    + rewrite Hg, propagated_get.
      destruct (dict_get (NoBaseException.nos o) k); [done|].
      destruct (decide (k = x)) as [->|Hne].
      * by rewrite decide_True by left.
      * destruct (decide (k ∈ links)) as [Hin|Hin].
        -- by rewrite decide_True by (by right).
        -- rewrite decide_False; [done|]. by intros [?|?]%elem_of_cons.
    + rewrite Hs, propagated_soft.
      destruct (decide (k ∈ links)) as [Hin|Hin].
      * by rewrite decide_True by (by right).
      * destruct (decide (k = x)) as [->|Hne].
        -- by rewrite decide_True by left.
        -- rewrite decide_False; [done|]. by intros [?|?]%elem_of_cons.
Qed.

Lemma made_as_propagated st c complaint linked name d links soft :
  _registry st !! c = Some (name, d, links, soft) →
  made st c complaint linked
  = foldl (λ o extra, propagated st extra o)
      (foldl (λ o l, NoBaseException._recordLinkedException l o)
         (NoBaseException.__init__ name c complaint None (Some []) (Some d)
            (Some [(c, soft)])) linked)
      links.
Proof. intros Hreg. unfold made, NoModule.registry_get. by rewrite Hreg. Qed.

Lemma made_shape st c name d links soft complaint :
  _registry st !! c = Some (name, d, links, soft) →
  let o := made st c complaint [] in
  NoBaseException.cls o = name
  ∧ dict_keys (NoBaseException.nos o) = foldl set_add [c] links
  ∧ dict_get (NoBaseException.nos o) c
    = Some (str_or (Some d) ("Error " +:+ str_of_int c) :: complaint_list complaint)
  ∧ (∀ l, l ∈ links → l ≠ c →
       dict_get (NoBaseException.nos o) l = Some (default_entry st l))
  ∧ (∀ l, l ∈ c :: links →
       dict_get (NoBaseException._softCodes o) l = Some (registered_soft st l)).
Proof.
  intros Hreg o. subst o.
  rewrite (made_as_propagated _ _ _ _ _ _ _ _ Hreg). cbn [foldl].
  set (o0 := NoBaseException.__init__ _ _ _ _ _ _ _).
  destruct (foldl_propagated st links o0) as (Hc & Hk & Hg & Hs).
  assert (Hn : NoBaseException.nos o0
               = [(c, str_or (Some d) ("Error " +:+ str_of_int c)
                      :: complaint_list complaint)]).
  { unfold o0. by rewrite init_nos_fresh, init_complaint_list. }
  split; [by rewrite Hc|]. split; [by rewrite Hk, Hn|].
  split; [|split].
  - rewrite Hg, Hn. simpl. by rewrite decide_True.
  - intros l Hl Hne. rewrite Hg, Hn. simpl.
    rewrite decide_False by done. by rewrite decide_True.
  - intros l Hl. rewrite Hs.
    destruct (decide (l ∈ links)) as [|Hnl]; [done|].
    apply elem_of_cons in Hl as [->|?]; [|done].
    unfold o0, NoBaseException.__init__. simpl. rewrite decide_True by done.
    unfold registered_soft, NoModule.registry_get. by rewrite Hreg.
Qed.

(** X11.  [_makeOne] for a registered code with linked codes: the new
    exception has the registered class; its codes are the code followed
    by the linked codes in order, without repeats; each linked code
    carries its own registered, or else generic, message and its own
    soft flag; linked codes of linked codes are not followed. *)
Theorem makeOne_linked_codes st c name d links soft complaint :
  _registry st !! c = Some (name, d, links, soft) →
  ∃ o, NoModule._makeOne c complaint [] st
       = (inl (length (heap st)), set_heap (heap st ++ [o]) st)
     ∧ NoBaseException.cls o = name
     ∧ dict_keys (NoBaseException.nos o) = foldl set_add [c] links
     ∧ dict_get (NoBaseException.nos o) c
       = Some (str_or (Some d) ("Error " +:+ str_of_int c) :: complaint_list complaint)
     ∧ (∀ l, l ∈ links → l ≠ c →
          dict_get (NoBaseException.nos o) l = Some (default_entry st l))
     ∧ (∀ l, l ∈ c :: links →
          dict_get (NoBaseException._softCodes o) l = Some (registered_soft st l)).
Proof.
  intros Hreg. exists (made st c complaint []). split; [apply makeOne_run|].
  by apply (made_shape st c name d links soft).
Qed.

Lemma makeOne_linked_codes_witness :
  ∃ o, NoModule._makeOne 500 None []
         (exec (NoModule.likey 500 "Server Error" (Some [404; 403]%Z) false) initial)
       = (inl 0, set_heap [o] (exec (NoModule.likey 500 "Server Error"
                                       (Some [404; 403]%Z) false) initial))
     ∧ dict_keys (NoBaseException.nos o) = [500; 404; 403]%Z.
Proof.
  destruct (makeOne_linked_codes
              (exec (NoModule.likey 500 "Server Error" (Some [404; 403]%Z) false) initial)
              500 "Error500" "Server Error" [404; 403]%Z false None eq_refl)
    as (o & Hrun & _ & Hkeys & _).
  exists o. split; [exact Hrun|exact Hkeys].
Defined.

Lemma dict_set_set {K V} `{EqDecision K} (d : list (K * V)) k v :
  dict_set (dict_set d k v) k v = dict_set d k v.
Proof. apply dict_set_same, dict_get_set_eq. Qed.

Lemma propagated_idem st c o :
  propagated st c (propagated st c o) = propagated st c o.
Proof.
  unfold propagated at 1. unfold NoBaseException.addCode.
  assert (Hm : dict_mem (NoBaseException.nos (propagated st c o)) c = true).
  { unfold propagated. rewrite setSoft_nos. apply addCode_mem. }
  rewrite Hm. unfold propagated, NoBaseException.setSoft, NoBaseException.set_softCodes.
  simpl. by rewrite dict_set_set.
Qed.

Lemma propagate_run exc o c st :
  heap st !! exc = Some o →
  NoModule.propagate exc c st
  = (inl tt, set_heap (<[exc := propagated st c o]> (heap st)) st).
Proof.
  intros Ho. unfold NoModule.propagate. run_step.
  do 1 run_step. erewrite update_run by solve_lookup. simpl.
  by rewrite list_insert_insert_eq.
Qed.

(** X12.  [propagate] adds a code with its registered message to a
    live exception, keeping a message list that is already there, sets
    the soft flag of that code from the registry, touches no other
    code, and is idempotent. *)
Theorem propagate_adds_registered_code exc o c st :
  heap st !! exc = Some o →
  let st' := set_heap (<[exc := propagated st c o]> (heap st)) st in
  NoModule.propagate exc c st = (inl tt, st')
  ∧ dict_get (NoBaseException.nos (propagated st c o)) c
    = Some (default (default_entry st c) (dict_get (NoBaseException.nos o) c))
  ∧ (∀ k, k ≠ c →
       dict_get (NoBaseException.nos (propagated st c o)) k
       = dict_get (NoBaseException.nos o) k
       ∧ dict_get (NoBaseException._softCodes (propagated st c o)) k
         = dict_get (NoBaseException._softCodes o) k)
  ∧ dict_get (NoBaseException._softCodes (propagated st c o)) c
    = Some (registered_soft st c)
  ∧ NoModule.propagate exc c st' = (inl tt, st').
Proof.
  intros Ho st'. split; [by apply propagate_run|].
  split; [|split; [|split]].
  - rewrite propagated_get. rewrite decide_True by done.
    by destruct (dict_get (NoBaseException.nos o) c).
  - intros k Hne. rewrite propagated_get, propagated_soft.
    rewrite !decide_False by done. by destruct (dict_get (NoBaseException.nos o) k).
  - rewrite propagated_soft. by rewrite decide_True.
  - assert (Hl : heap st' !! exc = Some (propagated st c o)).
    { subst st'. simpl. apply list_lookup_insert_eq. by eapply lookup_lt_Some. }
    rewrite (propagate_run _ _ _ _ Hl). f_equal.
    assert (Hp : propagated st' c (propagated st c o) = propagated st c o).
    { change (propagated st' c) with (propagated st c). apply propagated_idem. }
    rewrite Hp, list_insert_id by done. apply set_heap_id.
Qed.

Lemma propagate_adds_registered_code_witness :
  NoModule.propagate 0 404 with_receiver_7
  = (inl tt,
     set_heap [propagated with_receiver_7 404
                 (NoBaseException.__init__ "NoBaseException" 7 None None None None None)]
       with_receiver_7).
Proof.
  apply (propagate_adds_registered_code 0
           (NoBaseException.__init__ "NoBaseException" 7 None None None None None)
           404 with_receiver_7). reflexivity.
Defined.

(** ** The builder *)

Lemma dict_set_nonempty {K V} `{EqDecision K} (d : list (K * V)) k v :
  dict_set d k v ≠ [].
Proof. destruct d as [|[k0 v0] d]; simpl; [done|]. by destruct (decide (k = k0)). Qed.

Lemma withCode_nonempty c m b : NoBuilder._codes (NoBuilder.withCode c m b) ≠ [].
Proof.
  unfold NoBuilder.withCode. simpl.
  set (codes1 := if dict_mem _ c then _ else _).
  assert (H1 : codes1 ≠ []).
  { unfold codes1. destruct (dict_mem (NoBuilder._codes b) c) eqn:E.
    - intros Hnil. rewrite Hnil in E. done.
    - apply dict_set_nonempty. }
  destruct m as [[|a s]|]; simpl; auto using dict_set_nonempty.
Qed.

Lemma builder_codes_empty ops : ∀ b,
  NoBuilder._codes (foldl builder_step b ops) = []
  ↔ NoBuilder._codes b = [] ∧ existsb is_withCode ops = false.
Proof.
  induction ops as [|op ops IH]; intros b; simpl.
  { split; [done|by intros [? _]]. }
  rewrite IH. destruct op as [c m|e|c]; simpl; [|done..].
  split; [|by intros [_ ?]]. intros [H _]. by apply withCode_nonempty in H.
Qed.

(** X18.  [build] raises [ValueError] exactly when [withCode] was
    never called on the builder, whatever else was called on it. *)
Theorem build_needs_a_code (ops : list BuilderOp) :
  let b := foldl builder_step NoBuilder.new ops in
  (NoBuilder.build b = inl "At least one code must be specified"
   ↔ existsb is_withCode ops = false)
  ∧ (existsb is_withCode ops = true → ∃ exc b', NoBuilder.build b = inr (exc, b')).
Proof.
  intros b. pose proof (builder_codes_empty ops NoBuilder.new) as H. fold b in H.
  unfold NoBuilder.build. destruct (NoBuilder._codes b) as [|[p ms] rest] eqn:E.
  - destruct H as [H _]. destruct (H eq_refl) as [_ Hf'].
    split; [done|]. intros Ht. congruence.
  - split; [|by eauto]. split; [done|]. intros Hf.
    destruct H as [_ H]. by specialize (H (conj eq_refl Hf)).
Qed.

Lemma foldl_recordLinked_causes (es : list BaseException) : ∀ o,
  linked_synced o →
  let o' := foldl (λ o l, NoBaseException._recordLinkedException l o) o es in
  NoBaseException.nos o' = NoBaseException.nos o
  ∧ NoBaseException._softCodes o' = NoBaseException._softCodes o
  ∧ NoBaseException.cls o' = NoBaseException.cls o
  ∧ NoBaseException.str o' = NoBaseException.str o
  ∧ (∀ k locs, dict_get (NoBaseException.linked o) k = Some locs →
       ∃ locs', dict_get (NoBaseException.linked o') k = Some locs' ∧ locs ⊆ locs')
  ∧ (∀ e, e ∈ es →
       ∃ locs, dict_get (NoBaseException.linked o') (cause_key e) = Some locs
             ∧ exc_traceback e ∈ locs)
  ∧ (∀ k, is_Some (dict_get (NoBaseException.linked o') k) →
       is_Some (dict_get (NoBaseException.linked o) k) ∨ k ∈ cause_key <$> es).
Proof.
  induction es as [|e es IH]; intros o Hs; simpl.
  - repeat split; try done.
    + intros k locs Hk. by exists locs.
    + by intros e ?%elem_of_nil.
    + by left.
  - destruct (recordLinked_linked e o Hs) as [Hl Hs'].
    destruct (IH _ Hs') as (Hn & Hsc & Hc & Hstr & Hkeep & Hnew & Honly).
    repeat split; try done.
    + intros k locs Hk.
      assert (∃ l1, dict_get (NoBaseException.linked
                (NoBaseException._recordLinkedException e o)) k = Some l1
              ∧ locs ⊆ l1) as (l1 & Hl1 & Hsub).
      { rewrite Hl, dict_get_set. destruct (decide (k = cause_key e)) as [->|].
        - rewrite Hk. simpl. eexists. split; [done|apply set_add_subseteq].
        - by exists locs. }
      destruct (Hkeep _ _ Hl1) as (l2 & Hl2 & Hsub2).
      exists l2. split; [done|]. by etrans.
    + intros e' [->|Hin]%elem_of_cons; [|by apply Hnew].
      assert (∃ l1, dict_get (NoBaseException.linked
                (NoBaseException._recordLinkedException e o)) (cause_key e) = Some l1
              ∧ exc_traceback e ∈ l1) as (l1 & Hl1 & Hin1).
      { rewrite Hl, dict_get_set_eq. eexists. split; [done|apply set_add_elem]. }
      destruct (Hkeep _ _ Hl1) as (l2 & Hl2 & Hsub2).
      exists l2. split; [done|]. by apply Hsub2.
    + intros k Hk. destruct (Honly k Hk) as [Hk'|Hk'].
      * rewrite Hl, dict_get_set in Hk'.
        destruct (decide (k = cause_key e)) as [->|]; [right; by left|by left].
      * right. by right.
Qed.

Lemma build_primary (b : NoBuilder.t) p ms rest :
  NoBuilder._codes b = (p, ms) :: rest →
  NoBaseException.nos
    (NoBaseException.__init__ "NoBaseException" p (head ms)
       (Some ((p, ms) :: rest)) None None (Some (NoBuilder._soft_codes b)))
  = (p, ms ++ complaint_list (head ms)) :: rest.
Proof.
  intros Hc.
  assert (Hm : dict_mem ((p, ms) :: rest) p = true).
  { unfold dict_mem. simpl. by rewrite decide_True. }
  unfold NoBaseException.__init__. cbn [NoBaseException.nos default].
  unfold id. rewrite Hm.
  destruct ms as [|[|a s] ms]; simpl; rewrite ?decide_True by done;
    by rewrite ?app_nil_r.
Qed.

Lemma build_codes (b : NoBuilder.t) p ms rest :
  NoBuilder._codes b = (p, ms) :: rest →
  ∃ exc b',
    NoBuilder.build b = inr (exc, b')
    ∧ NoBuilder._codes b' = (p, ms ++ complaint_list (head ms)) :: rest.
Proof.
  intros Hc. unfold NoBuilder.build. rewrite Hc.
  eexists _, _. split; [done|]. cbn [NoBuilder._codes].
  rewrite (build_primary b p ms rest Hc). simpl. by rewrite !decide_True by done.
Qed.

(** X19.  For a builder whose first code is [p] with messages [ms],
    [build] returns an exception whose codes are the builder's, with
    the first message of [p] appended once more to [p]'s list (nothing
    is appended, and no default message is made, when [ms] is empty),
    whose soft flags are the builder's, whose text is composed from
    that code map, and whose linked causes are exactly the builder's.
    The builder's own list for [p] grows by the same message. *)
Theorem build_shape (b : NoBuilder.t) p ms rest :
  NoBuilder._codes b = (p, ms) :: rest →
  ∃ exc b',
    NoBuilder.build b = inr (exc, b')
    ∧ NoBaseException.nos exc = (p, ms ++ complaint_list (head ms)) :: rest
    ∧ NoBaseException._softCodes exc = NoBuilder._soft_codes b
    ∧ NoBaseException.str exc = NoBaseException.composeText_of (NoBaseException.nos exc)
    ∧ (∀ k, is_Some (dict_get (NoBaseException.linked exc) k)
            ↔ k ∈ cause_key <$> NoBuilder._linked b)
    ∧ NoBuilder._codes b' = NoBaseException.nos exc
    ∧ NoBuilder._linked b' = NoBuilder._linked b
    ∧ NoBuilder._soft_codes b' = NoBuilder._soft_codes b.
Proof.
  intros Hc. unfold NoBuilder.build. rewrite Hc.
  set (o0 := NoBaseException.__init__ _ _ _ _ _ _ _).
  assert (Hn0 : NoBaseException.nos o0 = (p, ms ++ complaint_list (head ms)) :: rest)
    by apply (build_primary b p ms rest Hc).
  destruct (foldl_recordLinked_causes (NoBuilder._linked b) o0 (or_introl eq_refl))
    as (Hn & Hsc & _ & Hstr & _ & Hnew & Honly).
  eexists _, _. split; [done|].
  split; [by rewrite Hn|]. split; [by rewrite Hsc|].
  split; [by rewrite Hstr, Hn|].
  split; [|split; [|done]].
  - intros k. split.
    + intros Hk. by destruct (Honly k Hk) as [[? [=]]|?].
    + intros (e & -> & He)%list_elem_of_fmap.
      destruct (Hnew e He) as (locs & -> & _). by eexists.
  - cbn [NoBuilder._codes]. rewrite Hn, Hn0. simpl. by rewrite !decide_True by done.
Qed.

Lemma build_shape_witness :
  ∃ exc b',
    NoBuilder.build (NoBuilder.withCode 404 None NoBuilder.new) = inr (exc, b')
    ∧ NoBaseException.nos exc = [(404%Z, [])].
Proof.
  destruct (build_shape (NoBuilder.withCode 404 None NoBuilder.new) 404 [] [] eq_refl)
    as (exc & b' & Hb & Hn & _).
  exists exc, b'. split; [exact Hb|exact Hn].
Defined.

(** X20.  Every further [build] on the same builder appends the first
    message once more: after [n] builds the builder's list for its
    first code ends in [n] copies of it. *)
Theorem build_repeats_first_message (b : NoBuilder.t) p m ms rest (n : nat) :
  NoBuilder._codes b = (p, m :: ms) :: rest →
  truthy (Some m) = true →
  ∃ b',
    rebuild n b = inr b'
    ∧ NoBuilder._codes b' = (p, m :: ms ++ replicate n m) :: rest.
Proof.
  intros Hc Hm. revert b ms Hc. induction n as [|n IH]; intros b ms Hc; simpl.
  - exists b. by rewrite app_nil_r.
  - destruct (build_codes b p (m :: ms) rest Hc) as (exc & b1 & Hb & Hc1).
    rewrite Hb.
    destruct (truthy_complaint_list _ Hm) as (m' & [= <-] & Hl).
    change (head (m :: ms)) with (Some m) in Hc1. rewrite Hl in Hc1.
    simpl in Hc1.
    destruct (IH b1 (ms ++ [m]) Hc1) as (b' & Hr & Hc').
    exists b'. split; [done|]. rewrite Hc'. by rewrite <- app_assoc.
Qed.

Lemma build_repeats_first_message_witness :
  ∃ b', rebuild 2 (NoBuilder.withCode 404 (Some "Not Found") NoBuilder.new) = inr b'
      ∧ NoBuilder._codes b' = [(404%Z, ["Not Found"; "Not Found"; "Not Found"])].
Proof.
  apply (build_repeats_first_message
           (NoBuilder.withCode 404 (Some "Not Found") NoBuilder.new)
           404 "Not Found" [] [] 2); reflexivity.
Defined.

(** ** Observers of the pending state *)

(** X14.  The observers agree: [no.complaints] is always the
    flattening of [no.nos]; both read the pending exception first,
    whose own [complaints] property gives the same list; [bueno] is
    true exactly when an exception is pending; and reading changes
    nothing. *)
Theorem observers_agree handled st :
  NoModule.complaints handled st
  = (d ← NoModule.nos handled; mret (concat (dict_values d))) st
  ∧ (NoModule.nos handled st).2 = st
  ∧ NoModule.bueno st = (inl (bool_decide (is_Some (NoModule.stash_of st))), st)
  ∧ (NoModule.stash_of st = None → handled ≫= exc_self = None →
     NoModule.nos handled st = (inl [], st))
  ∧ (∀ r o, NoModule.stash_of st = Some r → heap st !! r = Some o →
       NoModule.nos handled st = (inl (NoBaseException.nos o), st)
       ∧ NoModule.complaints handled st = (inl (NoBaseException.complaints o), st)).
Proof.
  unfold NoModule.complaints, NoModule.nos, NoModule.bueno.
  set (h := handled ≫= exc_self).
  unfold get_state, deref, mbind, M_bind, mret, M_ret.
  split; [|split; [|split; [|split]]]; [| | | |by intros r o -> ->].
  - destruct (NoModule.stash_of st) as [r|].
    + by destruct (heap st !! r).
    + destruct h as [r|]; [|done]. by destruct (heap st !! r).
  - destruct (NoModule.stash_of st) as [r|].
    + by destruct (heap st !! r).
    + destruct h as [r|]; [|done]. by destruct (heap st !! r).
  - unfold NoModule.stash_of. destruct (thread_pending st) as [[r|]|];
      try done; by destruct (pending_value st).
  - by intros -> ->.
Qed.

(** X13.  [dice] clears both pending slots without creating the
    thread-local attribute, so [bueno] is false and [nos] and
    [complaints] are empty outside an [except] block; inside one, [nos]
    still falls back to the exception being handled.  Heap, registry,
    flag and output are untouched, and a second [dice] changes
    nothing. *)
Theorem dice_resets st :
  let st' := exec NoModule.dice st in
  NoModule.dice st = (inl tt, st')
  ∧ NoModule.bueno st' = (inl false, st')
  ∧ NoModule.nos None st' = (inl [], st')
  ∧ NoModule.complaints None st' = (inl [], st')
  ∧ (∀ handled r o, exc_self handled = Some r → heap st !! r = Some o →
       NoModule.nos (Some handled) st' = (inl (NoBaseException.nos o), st'))
  ∧ heap st' = heap st ∧ _registry st' = _registry st
  ∧ hideTraceback st' = hideTraceback st ∧ stdout st' = stdout st
  ∧ (thread_pending st' = None ↔ thread_pending st = None)
  ∧ NoModule.dice st' = (inl tt, st').
Proof.
  intros st'.
  assert (Hs : NoModule.stash_of st' = None) by apply dice_clears.
  assert (Hh : heap st' = heap st).
  { subst st'. unfold exec, NoModule.dice, modify_state. simpl.
    by destruct (thread_pending st). }
  split; [done|].
  split.
  { unfold NoModule.bueno, get_state, mbind, M_bind, mret, M_ret.
    revert Hs. unfold NoModule.stash_of.
    destruct (thread_pending st') as [[r|]|]; try done;
      by destruct (pending_value st'). }
  split. { unfold NoModule.nos, get_state, mbind, M_bind. by rewrite Hs. }
  split. { unfold NoModule.complaints, get_state, mbind, M_bind. by rewrite Hs. }
  split.
  { intros handled r o Hr Ho. unfold NoModule.nos.
    assert (Some handled ≫= exc_self = Some r) as -> by done.
    unfold get_state, deref, mbind, M_bind. by rewrite Hs, Hh, Ho. }
  subst st'. unfold exec, NoModule.dice, modify_state. simpl.
  destruct (thread_pending st) eqn:E; simpl; rewrite ?E; repeat split; done.
Qed.

(** ** Linking, merging and the policy *)

Lemma registered_soft_default st c d :
  (NoModule.registry_get st c ("", d, [], false)).2 = registered_soft st c.
Proof.
  unfold registered_soft, NoModule.registry_get. by destruct (_registry st !! c).
Qed.

Lemma made_linked_one st c m e :
  NoBaseException.linked (made st c m [e]) = [(cause_key e, [exc_traceback e])].
Proof.
  unfold made.
  destruct (NoModule.registry_get st c _) as [[[excName defaultMsg] linkedCodes] softFlag].
  apply (foldl_preserves
           (λ o, NoBaseException.linked o = [(cause_key e, [exc_traceback e])])).
  - intros o x Ho. unfold NoBaseException.setSoft, NoBaseException.addCode.
    by destruct (dict_mem (NoBaseException.nos o) x).
  - done.
Qed.

(** X8.  A module-level call with a code and an exception to link
    always builds a new exception, also while another one is pending:
    its only linked cause is the given exception, keyed by type and
    text with the innermost traceback location, and the raise-or-stash
    policy is applied to it with the registered soft flag. *)
Theorem module_link_builds_fresh c e complaint soften st :
  let r := length (heap st) in
  let o := made st c complaint [e] in
  _handleCall CtxModule [AInt c; AExc e] complaint soften st
  = policy_result r o (registered_soft st c) soften
      (set_heap (heap st ++ [o]) st)
  ∧ NoBaseException.linked o = [(cause_key e, [exc_traceback e])]
  ∧ dict_mem (NoBaseException.nos o) c = true.
Proof.
  intros r o. split; [|split].
  - rewrite handleCall_link. unfold _handleCodeExceptionLink.
    run_step. cbv beta iota. run_step.
    erewrite handleSoftOrRaise_run by solve_lookup.
    by rewrite registered_soft_default.
  - apply made_linked_one.
  - apply made_mem.
Qed.

(** X9.  The same call on an exception [e] changes [e] itself: the
    code is added with the generic message, a message list already
    there being kept, the cause is recorded, the soft flags stay as
    they are, [complaint] is ignored, and the policy runs on [e] with
    [e]'s own soft flag for the code. *)
Theorem instance_link_records_cause self o c e complaint soften st :
  heap st !! self = Some o →
  let o' := NoBaseException._recordLinkedException e
              (NoBaseException.addCode c (Some ("Error " +:+ str_of_int c)) o) in
  _handleCall (CtxException self) [AInt c; AExc e] complaint soften st
  = policy_result self o'
      (default false (dict_get (NoBaseException._softCodes o) c)) soften
      (set_heap (<[self := o']> (heap st)) st)
  ∧ dict_get (NoBaseException.nos o') c
    = Some (default ["Error " +:+ str_of_int c] (dict_get (NoBaseException.nos o) c))
  ∧ (∃ locs, dict_get (NoBaseException.linked o') (cause_key e) = Some locs
           ∧ exc_traceback e ∈ locs)
  ∧ NoBaseException._softCodes o' = NoBaseException._softCodes o.
Proof.
  intros Ho o'. split; [|split; [|split]].
  - rewrite handleCall_link. unfold _handleCodeExceptionLink.
    run_step. cbv beta iota. do 2 run_step.
    erewrite handleSoftOrRaise_run by solve_lookup.
    simpl. by rewrite list_insert_insert_eq.
  - subst o'. unfold NoBaseException._recordLinkedException, NoBaseException.addCode.
    simpl. destruct (dict_mem (NoBaseException.nos o) c) eqn:E.
    + unfold dict_mem in E. by destruct (dict_get (NoBaseException.nos o) c).
    + simpl. rewrite dict_get_set_eq. unfold dict_mem in E.
      destruct (dict_get (NoBaseException.nos o) c); [done|].
      simpl. by destruct (str_of_int c).
  - subst o'. unfold NoBaseException._recordLinkedException. simpl.
    rewrite dict_get_set_eq. eexists. split; [done|apply set_add_elem].
  - subst o'. unfold NoBaseException._recordLinkedException, NoBaseException.addCode.
    by destruct (dict_mem (NoBaseException.nos o) c).
Qed.

Lemma instance_link_records_cause_witness :
  (_handleCall (CtxException 0) [AInt 404; AExc key_error] None false
     with_receiver_7).1 = inr (ExcNo 0).
Proof.
  destruct (instance_link_records_cause 0
              (NoBaseException.__init__ "NoBaseException" 7 None None None None None)
              404 key_error None false with_receiver_7 eq_refl) as [-> _].
  reflexivity.
Defined.

Lemma merged_stable c m d b o :
  let o' := NoBaseException.setSoft c b
              (NoBaseException.addMessage c m (NoBaseException.addCode c d o)) in
  NoBaseException.cls o' = NoBaseException.cls o
  ∧ NoBaseException.str o' = NoBaseException.str o
  ∧ NoBaseException.linked o' = NoBaseException.linked o.
Proof.
  unfold NoBaseException.setSoft, NoBaseException.addMessage, NoBaseException.addCode.
  destruct m as [[|a s]|], (dict_mem (NoBaseException.nos o) c); done.
Qed.

(** X7.  A soft single-code call on an exception [e] with nothing
    pending adds the code to [e] and then, as no [return] follows the
    stash, goes on to build a second exception of [e]'s class for the
    same code: the pending slot ends up naming that new object, which
    has no soft flags, and not [e]. *)
Theorem instance_soft_call_pends_a_copy self o c complaint soften st :
  heap st !! self = Some o →
  NoModule.stash_of st = None →
  default false (dict_get (NoBaseException._softCodes o) c) || soften = true →
  let o' := NoBaseException.setSoft c
              (default false (dict_get (NoBaseException._softCodes o) c))
              (NoBaseException.addMessage c complaint
                 (NoBaseException.addCode c (Some ("Error " +:+ str_of_int c)) o)) in
  let copy := NoBaseException.__init__ (NoBaseException.cls o) c complaint
                None None None None in
  _handleCall (CtxException self) [AInt c] complaint soften st
  = (inl tt,
     set_thread_pending (Some (Some (length (heap st))))
       (set_heap (<[self := o']> (heap st) ++ [copy]) st))
  ∧ length (heap st) ≠ self
  ∧ NoBaseException._softCodes copy = [].
Proof.
  intros Ho Hp Hsoft o' copy. split; [|split; [|done]].
  - rewrite handleCall_single. unfold _handleSingleCode.
    run_step. cbv beta iota. run_step. rewrite Hp. cbv beta iota.
    run_step.
    erewrite bind_ok.
    2:{ do 3 run_step.
        erewrite handleSoftOrRaise_run by solve_lookup. by rewrite Hsoft. }
    run_step.
    erewrite handleSoftOrRaise_run by solve_lookup.
    rewrite Hsoft. simpl. rewrite !list_insert_insert_eq, length_insert.
    assert (Hcls : NoBaseException.cls
                     (NoBaseException.addMessage c complaint
                        (NoBaseException.addCode c
                           (Some ("Error " +:+ str_of_int c)) o))
                   = NoBaseException.cls o).
    { apply (merged_stable c complaint (Some ("Error " +:+ str_of_int c)) false o). }
    by rewrite Hcls.
  - apply lookup_lt_Some in Ho. lia.
Qed.

Lemma instance_soft_call_pends_a_copy_witness :
  (_handleCall (CtxException 0) [AInt 8] None true with_receiver_7).1 = inl tt
  ∧ thread_pending (_handleCall (CtxException 0) [AInt 8] None true with_receiver_7).2
    = Some (Some 1).
Proof.
  destruct (instance_soft_call_pends_a_copy 0
              (NoBaseException.__init__ "NoBaseException" 7 None None None None None)
              8 None true with_receiver_7 eq_refl eq_refl eq_refl) as [-> _].
  split; reflexivity.
Defined.



Lemma str_or_idem s d : str_or (Some (str_or s d)) d = str_or s d.
Proof. destruct s as [[|a r]|]; simpl; try done; by destruct d. Qed.

Lemma made_str st c m name d links soft :
  _registry st !! c = Some (name, d, links, soft) →
  NoBaseException.str (made st c m [])
  = NoBaseException.composeText_of
      [(c, str_or (Some d) ("Error " +:+ str_of_int c) :: complaint_list m)].
Proof.
  intros Hreg. rewrite (made_as_propagated _ _ _ _ _ _ _ _ Hreg). cbn [foldl].
  set (o0 := NoBaseException.__init__ _ _ _ _ _ _ _).
  assert (H0 : NoBaseException.str o0
               = NoBaseException.composeText_of
                   [(c, str_or (Some d) ("Error " +:+ str_of_int c)
                        :: complaint_list m)]).
  { unfold NoBaseException.str.
    assert (Ha : NoBaseException.args0 o0
                 = NoBaseException.composeText_of (NoBaseException.nos o0)) by done.
    rewrite Ha. unfold o0. by rewrite init_nos_fresh, init_complaint_list. }
  rewrite <- H0.
  apply (foldl_preserves (λ o, NoBaseException.str o = NoBaseException.str o0));
    [|done].
  intros o x Ho. unfold propagated, NoBaseException.setSoft, NoBaseException.addCode.
  by destruct (dict_mem (NoBaseException.nos o) x).
Qed.

(** X10.  Registering a code that was not registered and then calling
    it at module level with nothing pending builds an exception of
    class Error<c>.  Its message list for [c] is the registered message
    (the generic one when the message given is empty) followed by the
    complaint; its codes are [c] and then the linked codes; its text
    shows [c] alone; and the policy is applied with the registered soft
    flag. *)
Theorem register_then_call c msg links soft complaint soften st :
  _registry st !! c = None →
  NoModule.stash_of st = None →
  let st1 := exec (NoModule.likey c msg links soft) st in
  let text := str_or (Some msg) ("Error " +:+ str_of_int c) in
  ∃ o,
    _handleCall CtxModule [AInt c] complaint soften st1
    = policy_result (length (heap st)) o soft soften
        (set_heap (heap st ++ [o]) st1)
    ∧ NoBaseException.cls o = "Error" +:+ str_of_int c
    ∧ dict_get (NoBaseException.nos o) c = Some (text :: complaint_list complaint)
    ∧ dict_keys (NoBaseException.nos o) = foldl set_add [c] (default [] links)
    ∧ NoBaseException.str o
      = NoBaseException.composeText_of [(c, text :: complaint_list complaint)].
Proof.
  intros Hfresh Hp st1 text.
  assert (Hreg : _registry st1 !! c
                 = Some ("Error" +:+ str_of_int c, text, default [] links, soft)).
  { subst st1. unfold exec, NoModule.likey.
    erewrite bind_ok by apply get_state_run. rewrite Hfresh.
    unfold modify_state. simpl. by rewrite lookup_insert_eq. }
  assert (Hh : heap st1 = heap st).
  { subst st1. unfold exec, NoModule.likey.
    erewrite bind_ok by apply get_state_run. by rewrite Hfresh. }
  assert (Hp1 : NoModule.stash_of st1 = None).
  { subst st1. unfold exec, NoModule.likey.
    erewrite bind_ok by apply get_state_run. by rewrite Hfresh. }
  destruct (made_shape st1 c _ _ _ _ complaint Hreg) as (Hcls & Hkeys & Hget & _).
  exists (made st1 c complaint []).
  split; [|split; [done|split; [|split; [done|]]]].
  - rewrite handleCall_single. unfold _handleSingleCode.
    run_step. cbv beta iota. run_step. rewrite Hp1. cbv beta iota.
    do 3 run_step.
    erewrite handleSoftOrRaise_run by solve_lookup.
    rewrite Hh. unfold policy_result. simpl.
    assert (Hsf : (NoModule.registry_get st1 c ("", "Error " +:+ str_of_int c, [], false)).2
                  = soft).
    { unfold NoModule.registry_get. by rewrite Hreg. }
    by rewrite Hsf.
  - rewrite Hget. subst text. by rewrite str_or_idem.
  - rewrite (made_str _ _ _ _ _ _ _ Hreg). subst text. by rewrite str_or_idem.
Qed.

Lemma register_then_call_witness :
  ∃ o,
    _handleCall CtxModule [AInt 404] None false
      (exec (NoModule.likey 404 "Not Found" None false) initial)
    = (inr (ExcNo 0),
       set_heap [o] (exec (NoModule.likey 404 "Not Found" None false) initial))
    ∧ NoBaseException.str o
      = NoBaseException.composeText_of [(404%Z, ["Not Found"])].
Proof.
  destruct (register_then_call 404 "Not Found" None false None false initial
              eq_refl eq_refl) as (o & Hrun & _ & _ & _ & Hstr).
  exists o. split; [exact Hrun|exact Hstr].
Defined.

(** ** [go] *)

Lemma handleCall_single_eq ctx c complaint soften :
  _handleCall ctx [AInt c] complaint soften
  = _handleSingleCode ctx c complaint soften None.
Proof. by destruct complaint, soften. Qed.

Lemma handleCall_link_eq ctx c e complaint soften :
  _handleCall ctx [AInt c; AExc e] complaint soften
  = _handleCodeExceptionLink ctx c e complaint soften.
Proof. by destruct complaint, soften. Qed.

(** X21.  [go] returns the value of the wrapped function with the
    state it left, lets an exception outside [Exception] through
    untouched, and otherwise signals only what the call in its handler
    raises, which is an exception of the package or the exit of the
    interpreter.  Beyond what the wrapped function did, [go] changes
    no more than a call does. *)
Theorem go_passes_through {A} code (fn : Callee A) soften st :
  (∀ v st1, fn st = (inl v, st1) → go code fn soften st = (inl (Some v), st1))
  ∧ (∀ exc st1, fn st = (inr (ThrownOther exc), st1) →
       go code fn soften st = (inr (Propagated exc), st1))
  ∧ (∀ exc, (go code fn soften st).1 = inr (Propagated exc) →
       (fn st).1 = inr (ThrownOther exc) ∧ (go code fn soften st).2 = (fn st).2)
  ∧ (∀ e, (go code fn soften st).1 = inr (Signalled e) →
       go_signal e ∧ ∃ exc, (fn st).1 = inr (ThrownException exc))
  ∧ frame (fn st).2 (go code fn soften st).2.
Proof.
  assert (Hsafe : ∀ exc, safe go_signal
            match exc_self exc with
            | Some _ => _handleCall CtxModule [AInt code] None soften
            | None => _handleCall CtxModule [AInt code; AExc exc] None soften
            end).
  { intros exc. destruct (exc_self exc).
    - rewrite (handleCall_single_eq CtxModule code None soften).
      apply safe_handleSingleCode; unfold go_signal; eauto.
    - rewrite (handleCall_link_eq CtxModule code exc None soften).
      apply safe_handleCodeExceptionLink; unfold go_signal; eauto. }
  unfold go. destruct (fn st) as [[v|[exc|exc]] st1] eqn:E; cbn [fst snd].
  - split; [by intros ? ? [= -> ->]|]. do 3 (split; [done|]). apply frame_refl.
  - destruct (Hsafe exc st1) as [Hf He]. revert Hf He.
    set (call := match exc_self exc with
                 | Some _ => _handleCall CtxModule [AInt code] None soften
                 | None => _handleCall CtxModule [AInt code; AExc exc] None soften
                 end).
    destruct (call st1) as [[[]|e] st2]; cbn [fst snd]; intros Hf He.
    + by do 4 (split; [done|]).
    + do 3 (split; [done|]). split; [|done].
      intros e' [= <-]. split; [by apply He|]. by eexists.
  - split; [done|]. split; [by intros ? ? [= -> ->]|].
    split; [by intros ? [= ->]|]. split; [done|]. apply frame_refl.
Qed.



(** X22.  When the wrapped function raises a foreign exception, [go]
    builds a new exception for its code with that exception as only
    linked cause and applies the policy: it returns [None] with the new
    exception pending when the code is soft or [soften] is set, and
    signals the new exception otherwise. *)
Theorem go_links_foreign_exception {A} code (fn : Callee A) soften st exc st1 :
  fn st = (inr (ThrownException exc), st1) →
  exc_self exc = None →
  let o := made st1 code None [exc] in
  go code fn soften st
  = go_outcome (policy_result (length (heap st1)) o (registered_soft st1 code) soften
                  (set_heap (heap st1 ++ [o]) st1))
  ∧ NoBaseException.linked o = [(cause_key exc, [exc_traceback exc])]
  ∧ dict_mem (NoBaseException.nos o) code = true.
Proof.
  intros Hfn Hself o. split; [|split; [apply made_linked_one|apply made_mem]].
  unfold go. rewrite Hfn, Hself.
  rewrite handleCall_link. unfold _handleCodeExceptionLink.
  run_step. cbv beta iota. run_step.
  erewrite handleSoftOrRaise_run by solve_lookup.
  by rewrite registered_soft_default.
Qed.

Lemma go_links_foreign_exception_witness :
  (go 500 (raising key_error) true initial).1 = inl None
  ∧ thread_pending (go 500 (raising key_error) true initial).2 = Some (Some 0).
Proof.
  destruct (go_links_foreign_exception 500 (raising key_error) true initial
              key_error initial eq_refl eq_refl) as [-> _].
  split; reflexivity.
Defined.



(** X24.  The context-manager path of [go] behaves as the callable
    path does on the same block, with the value dropped. *)
Theorem go_paths_agree code (body : Callee unit) soften st :
  go_ctx code body soften st
  = match go code body soften st with
    | (inl _, st') => (inl tt, st')
    | (inr e, st') => (inr e, st')
    end.
Proof.
  unfold go_ctx, go. destruct (body st) as [[v|[exc|exc]] st1]; try done.
  set (call := match exc_self exc with
               | Some _ => _handleCall CtxModule [AInt code] None soften
               | None => _handleCall CtxModule [AInt code; AExc exc] None soften
               end).
  cbv zeta. by destruct (call st1) as [[[]|e] st2].
Qed.

(** ** Hidden tracebacks *)

Lemma hidden_of_safe {A} (m : M A) : safe quiet m → hidden_safe m.
Proof.
  intros Hm st Hst. destruct (Hm st) as [(_ & Hh & _) Hr].
  split; [by rewrite Hh|done].
Qed.

Lemma hidden_bind {A B} (m : M A) (f : A → M B) :
  hidden_safe m → (∀ x, hidden_safe (f x)) → hidden_safe (m ≫= f).
Proof.
  intros Hm Hf st Hst. unfold mbind, M_bind.
  destruct (Hm st Hst) as [Hh Hr]. destruct (m st) as [[x|e] st1]; simpl in *.
  - by apply Hf.
  - split; [done|]. intros e' [= <-]. by apply Hr.
Qed.

Lemma hidden_bind_state {A} (f : State → M A) :
  (∀ st, hideTraceback st = true → hidden_safe (f st)) →
  hidden_safe (get_state ≫= f).
Proof. intros Hf st Hst. by apply Hf. Qed.

Lemma hidden_raze_then {A} r (k : unit → M A) : hidden_safe (raze r ≫= k).
Proof.
  intros st Hst. unfold raze, deref, print, modify_state, raise, mbind, M_bind.
  destruct (heap st !! r); simpl; (split; [done|]); by intros ? [= <-].
Qed.

Lemma hidden_handleSoftOrRaise exc sf soften :
  hidden_safe (_handleSoftOrRaise exc sf soften).
Proof.
  unfold _handleSoftOrRaise. destruct (sf || soften).
  - apply hidden_of_safe, safe_setPending.
  - apply hidden_bind_state. intros st ->. apply hidden_raze_then.
Qed.

Ltac hidden_atom :=
  apply hidden_of_safe;
  first [ apply safe_getRegistryEntry | apply safe_getPending
        | apply safe_update, stable_addCode
        | apply safe_update, stable_addMessage
        | apply safe_update, stable_setSoft
        | apply safe_update, stable_recordLinked
        | apply safe_maybe_addMessage | apply safe_setPending
        | apply safe_makeOne | apply safe_construct_like
        | apply safe_propagate | apply safe_ret ];
  done.

Lemma hidden_handleEmptyCall ctx : hidden_safe (_handleEmptyCall ctx).
Proof.
  unfold _handleEmptyCall. apply hidden_bind; [hidden_atom|].
  intros pending. apply hidden_bind_state. intros st ->.
  destruct pending as [p|]; [apply hidden_raze_then|].
  destruct ctx as [|self]; [|apply hidden_raze_then].
  apply hidden_bind; [hidden_atom|]. intros exc. apply hidden_raze_then.
Qed.

Lemma hidden_handleSingleCode ctx c complaint soften exception :
  hidden_safe (_handleSingleCode ctx c complaint soften exception).
Proof.
  unfold _handleSingleCode. apply hidden_bind; [hidden_atom|].
  intros [sf dm]. apply hidden_bind; [hidden_atom|].
  intros [p|].
  - do 3 (apply hidden_bind; [hidden_atom|]; intros _). hidden_atom.
  - apply hidden_bind.
    { destruct ctx; [|hidden_atom].
      destruct (exception ≫= exc_self) as [e|]; [|hidden_atom].
      do 3 (apply hidden_bind; [hidden_atom|]; intros _).
      apply hidden_handleSoftOrRaise. }
    intros _. apply hidden_bind.
    { destruct ctx as [|self]; [hidden_atom|].
      do 3 (apply hidden_bind; [hidden_atom|]; intros _).
      apply hidden_handleSoftOrRaise. }
    intros _. apply hidden_bind.
    { destruct ctx; hidden_atom. }
    intros exc. apply hidden_handleSoftOrRaise.
Qed.

Lemma hidden_handleCodeMessage ctx c msg soften :
  hidden_safe (_handleCodeMessage ctx c msg soften).
Proof.
  unfold _handleCodeMessage. apply hidden_bind; [hidden_atom|].
  intros [sf dm]. apply hidden_bind; [hidden_atom|].
  intros [p|].
  - do 3 (apply hidden_bind; [hidden_atom|]; intros _). hidden_atom.
  - apply hidden_bind.
    { destruct ctx as [|self]; [hidden_atom|].
      do 3 (apply hidden_bind; [hidden_atom|]; intros _).
      apply hidden_handleSoftOrRaise. }
    intros _. apply hidden_bind.
    { destruct ctx; hidden_atom. }
    intros exc. apply hidden_handleSoftOrRaise.
Qed.

Lemma hidden_handleCodeExceptionLink ctx c e complaint soften :
  hidden_safe (_handleCodeExceptionLink ctx c e complaint soften).
Proof.
  unfold _handleCodeExceptionLink. apply hidden_bind; [hidden_atom|].
  intros [sf dm]. destruct ctx as [|self].
  - apply hidden_bind; [hidden_atom|]. intros exc. apply hidden_handleSoftOrRaise.
  - do 2 (apply hidden_bind; [hidden_atom|]; intros _).
    apply hidden_handleSoftOrRaise.
Qed.

Lemma handleCall_empty_eq ctx complaint soften :
  _handleCall ctx [] complaint soften = _handleEmptyCall ctx.
Proof. by destruct complaint, soften. Qed.

Lemma handleCall_message_eq ctx c msg complaint soften :
  _handleCall ctx [AInt c; AStr msg] complaint soften
  = _handleCodeMessage ctx c msg soften.
Proof. by destruct complaint, soften. Qed.

Lemma handleCall_list_eq ctx codes complaint soften :
  _handleCall ctx [AList codes] complaint soften
  = _handleExceptionGroup ctx codes complaint.
Proof. by destruct complaint, soften. Qed.

Lemma handleCall_exception_eq ctx e complaint soften :
  _handleCall ctx [AExc e] complaint soften = mret tt.
Proof. by destruct complaint, soften. Qed.

Lemma hidden_handleCall ctx args complaint soften :
  hidden_safe (_handleCall ctx args complaint soften).
Proof.
  destruct (call_shape_dec args) as [Hs|Hn].
  - destruct Hs.
    + rewrite (handleCall_empty_eq ctx complaint soften).
      apply hidden_handleEmptyCall.
    + rewrite (handleCall_list_eq ctx codes complaint soften).
      by apply hidden_of_safe, safe_handleExceptionGroup.
    + rewrite (handleCall_exception_eq ctx e complaint soften).
      apply hidden_of_safe, safe_ret.
    + rewrite handleCall_single_eq. apply hidden_handleSingleCode.
    + rewrite handleCall_link_eq. apply hidden_handleCodeExceptionLink.
    + rewrite (handleCall_message_eq ctx c msg complaint soften).
      apply hidden_handleCodeMessage.
  - intros st' Hst'. rewrite handleCall_no_shape by done.
    split; [done|]. by intros ? [= <-].
Qed.

Lemma blind_ret {A} (x : A) : flag_blind (mret x).
Proof. done. Qed.

Lemma blind_raise {A} e : flag_blind (raise (A := A) e).
Proof. done. Qed.

Lemma blind_bind {A B} (m : M A) (f : A → M B) :
  flag_blind m → (∀ x, flag_blind (f x)) → flag_blind (m ≫= f).
Proof.
  intros Hm Hf b st. unfold mbind, M_bind. rewrite Hm. unfold with_flag.
  destruct (m st) as [[x|e] st1]; simpl; [apply Hf|done].
Qed.

(** A continuation of [get_state] that reads the registry only. *)
Lemma blind_bind_registry {A} (f : State → M A) :
  (∀ b st, f (set_hideTraceback b st) = f st) →
  (∀ st, flag_blind (f st)) →
  flag_blind (get_state ≫= f).
Proof.
  intros Hreg Hf b st. unfold mbind, M_bind, get_state.
  rewrite Hreg. apply Hf.
Qed.

Lemma blind_for_each {A} (l : list A) (body : A → M unit) :
  (∀ x, flag_blind (body x)) → flag_blind (for_each l body).
Proof.
  intros Hb. induction l as [|x l IH]; simpl; [apply blind_ret|].
  apply blind_bind; [apply Hb|done].
Qed.

Lemma blind_comprehension {A B} (f : A → M B) (l : list A) :
  (∀ x, flag_blind (f x)) → flag_blind (comprehension f l).
Proof.
  intros Hf. induction l as [|x l IH]; simpl; [apply blind_ret|].
  apply blind_bind; [apply Hf|]. intros y.
  apply blind_bind; [done|]. intros ys. apply blind_ret.
Qed.

Lemma blind_new o : flag_blind (new o).
Proof. done. Qed.

Lemma blind_deref r : flag_blind (deref r).
Proof. intros b st. unfold deref. simpl. by destruct (heap st !! r). Qed.

Lemma blind_update r f : flag_blind (update r f).
Proof.
  unfold update. apply blind_bind; [apply blind_deref|]. by intros o.
Qed.

Lemma blind_setPending exc : flag_blind (_setPending exc).
Proof. done. Qed.

Lemma blind_getPending : flag_blind _getPending.
Proof. done. Qed.

Lemma blind_maybe_addMessage (b : bool) r c m :
  flag_blind (if b then update r (NoBaseException.addMessage c m) else mret tt).
Proof. destruct b; [apply blind_update|apply blind_ret]. Qed.

Lemma blind_makeOne c m l : flag_blind (NoModule._makeOne c m l).
Proof.
  unfold NoModule._makeOne. apply blind_bind_registry; [done|]. intros st.
  destruct (NoModule.registry_get st c _) as [[[excName defaultMsg] linkedCodes] softFlag].
  apply blind_bind; [apply blind_new|]. intros exc.
  apply blind_bind.
  { apply blind_for_each. intros x. apply blind_update. }
  intros _. apply blind_bind; [|intros _; apply blind_ret].
  apply blind_for_each. intros x. apply blind_bind_registry; [done|]. intros st'.
  apply blind_bind; apply blind_update || (intros _; apply blind_update).
Qed.

Lemma blind_construct_like self c m : flag_blind (construct_like self c m).
Proof.
  unfold construct_like. apply blind_bind; [apply blind_deref|].
  intros o. apply blind_new.
Qed.

Lemma blind_getRegistryEntry ctx c : flag_blind (_getRegistryEntry ctx c).
Proof.
  destruct ctx as [|self]; simpl.
  - apply blind_bind_registry; [done|]. intros st. apply blind_ret.
  - apply blind_bind; [apply blind_deref|]. intros o. apply blind_ret.
Qed.

Lemma blind_propagate exc c : flag_blind (NoModule.propagate exc c).
Proof.
  unfold NoModule.propagate. apply blind_bind_registry; [done|]. intros st.
  apply blind_bind; [apply blind_update|]. intros _. apply blind_update.
Qed.

Lemma exits_of_blind {A} (m : M A) :
  flag_blind m → safe quiet m → exits_when_hidden m.
Proof.
  intros Hb Hs st Hst. destruct (Hs st) as [(_ & Hh & _) Hq].
  split; [|by rewrite Hh].
  rewrite Hb. f_equal. destruct (m st) as [[x|e] st1]; [done|].
  specialize (Hq e eq_refl). by destruct e.
Qed.

Lemma exits_bind {A B} (m : M A) (f : A → M B) :
  exits_when_hidden m → (∀ x, exits_when_hidden (f x)) →
  exits_when_hidden (m ≫= f).
Proof.
  intros Hm Hf st Hst. unfold mbind, M_bind.
  destruct (Hm st Hst) as [Hrun Hflag]. rewrite Hrun.
  destruct (m st) as [[x|e] st1]; simpl in *.
  - by apply Hf.
  - split; [|done]. destruct e; try done. by destruct (heap st1 !! exc).
Qed.

Lemma get_state_bind {A} (f : State → M A) st : (get_state ≫= f) st = f st st.
Proof. done. Qed.

(** The guarded raise of call.py: [if no.hideTraceback: raze(r)]
    followed by [raise r]. *)
Lemma exits_raze_or_raise r st :
  hideTraceback st = false →
  (raze r ≫= λ _, raise (A := unit) (ExcNo r)) (set_hideTraceback true st)
  = with_flag true (exit_instead (inr (ExcNo r), st)).
Proof.
  intros Hst. unfold raze, deref, print, modify_state, raise, mbind, M_bind. simpl.
  by destruct (heap st !! r).
Qed.

Lemma exits_handleSoftOrRaise exc sf soften :
  exits_when_hidden (_handleSoftOrRaise exc sf soften).
Proof.
  unfold _handleSoftOrRaise. destruct (sf || soften).
  - apply exits_of_blind; [apply blind_setPending|by apply safe_setPending].
  - intros st Hst. rewrite !get_state_bind.
    cbn [hideTraceback set_hideTraceback]. rewrite Hst.
    split; [by apply exits_raze_or_raise|done].
Qed.

Ltac exits_atom :=
  apply exits_of_blind;
  [ first [ apply blind_getRegistryEntry | apply blind_getPending
          | apply blind_update | apply blind_maybe_addMessage
          | apply blind_setPending | apply blind_makeOne
          | apply blind_construct_like | apply blind_propagate
          | apply blind_ret ]
  | first [ apply safe_getRegistryEntry | apply safe_getPending
          | apply safe_update, stable_addCode
          | apply safe_update, stable_addMessage
          | apply safe_update, stable_setSoft
          | apply safe_update, stable_recordLinked
          | apply safe_maybe_addMessage | apply safe_setPending
          | apply safe_makeOne | apply safe_construct_like
          | apply safe_propagate | apply safe_ret ]; done ].

Lemma exits_handleEmptyCall ctx : exits_when_hidden (_handleEmptyCall ctx).
Proof.
  unfold _handleEmptyCall. apply exits_bind; [exits_atom|].
  intros pending st Hst. rewrite !get_state_bind.
  cbn [hideTraceback set_hideTraceback]. rewrite Hst.
  destruct pending as [p|]; [by split; [apply exits_raze_or_raise|]|].
  destruct ctx as [|self]; [|by split; [apply exits_raze_or_raise|]].
  rewrite !(bind_ok _ _ _ _ _ (makeOne_run _ _ _ _)).
  split; [|done].
  change (set_heap (heap (set_hideTraceback true st)
                    ++ [made (set_hideTraceback true st) 0 None []])
            (set_hideTraceback true st))
    with (set_hideTraceback true (set_heap (heap st ++ [made st 0 None []]) st)).
  by rewrite exits_raze_or_raise.
Qed.

Lemma exits_handleSingleCode ctx c complaint soften exception :
  exits_when_hidden (_handleSingleCode ctx c complaint soften exception).
Proof.
  unfold _handleSingleCode. apply exits_bind; [exits_atom|].
  intros [sf dm]. apply exits_bind; [exits_atom|].
  intros [p|].
  - do 3 (apply exits_bind; [exits_atom|]; intros _). exits_atom.
  - apply exits_bind.
    { destruct ctx; [|exits_atom].
      destruct (exception ≫= exc_self) as [e|]; [|exits_atom].
      do 3 (apply exits_bind; [exits_atom|]; intros _).
      apply exits_handleSoftOrRaise. }
    intros _. apply exits_bind.
    { destruct ctx as [|self]; [exits_atom|].
      do 3 (apply exits_bind; [exits_atom|]; intros _).
      apply exits_handleSoftOrRaise. }
    intros _. apply exits_bind.
    { destruct ctx; exits_atom. }
    intros exc. apply exits_handleSoftOrRaise.
Qed.

Lemma exits_handleCodeMessage ctx c msg soften :
  exits_when_hidden (_handleCodeMessage ctx c msg soften).
Proof.
  unfold _handleCodeMessage. apply exits_bind; [exits_atom|].
  intros [sf dm]. apply exits_bind; [exits_atom|].
  intros [p|].
  - do 3 (apply exits_bind; [exits_atom|]; intros _). exits_atom.
  - apply exits_bind.
    { destruct ctx as [|self]; [exits_atom|].
      do 3 (apply exits_bind; [exits_atom|]; intros _).
      apply exits_handleSoftOrRaise. }
    intros _. apply exits_bind.
    { destruct ctx; exits_atom. }
    intros exc. apply exits_handleSoftOrRaise.
Qed.

Lemma exits_handleCodeExceptionLink ctx c e complaint soften :
  exits_when_hidden (_handleCodeExceptionLink ctx c e complaint soften).
Proof.
  unfold _handleCodeExceptionLink. apply exits_bind; [exits_atom|].
  intros [sf dm]. destruct ctx as [|self].
  - apply exits_bind; [exits_atom|]. intros exc. apply exits_handleSoftOrRaise.
  - do 2 (apply exits_bind; [exits_atom|]; intros _).
    apply exits_handleSoftOrRaise.
Qed.

Lemma exits_module_list codes complaint :
  exits_when_hidden (_handleExceptionGroup CtxModule codes complaint).
Proof.
  apply exits_of_blind; [|by apply safe_handleExceptionGroup].
  unfold _handleExceptionGroup. apply blind_bind.
  - apply blind_comprehension. intros c. apply blind_makeOne.
  - intros excs. by destruct excs.
Qed.

Lemma exits_handleCall ctx args complaint soften :
  list_on_exception ctx args = false →
  exits_when_hidden (_handleCall ctx args complaint soften).
Proof.
  intros Hl. destruct (call_shape_dec args) as [Hs|Hn].
  - destruct Hs.
    + rewrite (handleCall_empty_eq ctx complaint soften).
      apply exits_handleEmptyCall.
    + rewrite (handleCall_list_eq ctx codes complaint soften).
      destruct ctx; [apply exits_module_list|done].
    + rewrite (handleCall_exception_eq ctx e complaint soften). exits_atom.
    + rewrite handleCall_single_eq. apply exits_handleSingleCode.
    + rewrite handleCall_link_eq. apply exits_handleCodeExceptionLink.
    + rewrite (handleCall_message_eq ctx c msg complaint soften).
      apply exits_handleCodeMessage.
  - intros st Hst. by rewrite !handleCall_no_shape.
Qed.

(** X5.  After [no.traceback()] the flag stays set through any sequence
    of calls, and none of them lets an exception of the package
    propagate on its own.  A call under hidden tracebacks does exactly
    what it does with tracebacks shown, except that where the latter
    raises an exception of the package the former prints that
    exception's text and exits with status 1; this holds for every
    receiver and every argument tuple but a list of codes passed to an
    exception.  A list of codes passed to the module is not affected by
    the flag: it raises its group, or the constructor's error for an
    empty list, and prints nothing. *)
Theorem hidden_traceback_prints_and_exits :
  (∀ calls st,
     hideTraceback (hidden_calls calls st).2 = true
     ∧ match (hidden_calls calls st).1 with
       | inr e => quiet e
       | inl _ => True
       end)
  ∧ (∀ ctx args complaint soften st,
       hideTraceback st = false →
       list_on_exception ctx args = false →
       _handleCall ctx args complaint soften (exec NoModule.traceback st)
       = with_flag true (exit_instead (_handleCall ctx args complaint soften st)))
  ∧ (∀ codes complaint soften st,
       ∃ exceptions,
         (_handleCall CtxModule [AList codes] complaint soften st).1
         = (raise_ExceptionGroup (A := unit) "Multiple errors" exceptions st).1
         ∧ stdout (_handleCall CtxModule [AList codes] complaint soften st).2
           = stdout st).
Proof.
  split; [|split].
  - intros calls st.
    assert (Hs : hidden_safe
              (for_each calls (λ call : Context * list Arg * option string * bool,
                 _handleCall call.1.1.1 call.1.1.2 call.1.2 call.2))).
    { induction calls as [|call calls IH]; simpl.
      - apply hidden_of_safe, safe_ret.
      - apply hidden_bind; [apply hidden_handleCall|done]. }
    assert (Hrun : hidden_calls calls st
                   = for_each calls
                       (λ call : Context * list Arg * option string * bool,
                          _handleCall call.1.1.1 call.1.1.2 call.1.2 call.2)
                       (set_hideTraceback true st)) by done.
    rewrite Hrun.
    destruct (Hs (set_hideTraceback true st) eq_refl) as [Hh Hq].
    split; [done|].
    destruct (for_each calls _ (set_hideTraceback true st)) as [[[]|e] st1]; [done|].
    by apply Hq.
  - intros ctx args complaint soften st Hst Hl.
    by apply (exits_handleCall ctx args complaint soften Hl st).
  - intros codes complaint soften st. rewrite handleCall_list.
    unfold _handleExceptionGroup.
    erewrite bind_ok by apply comprehension_makeOne.
    exists (seq (length (heap st)) (length codes)).
    by destruct (seq (length (heap st)) (length codes)).
Qed.
